(** * Tourist safety monitoring service

    A shallow embedding of [main.py]: the haversine distance utility, the
    safety scorer behind [/calculate_score], the anomaly detector behind
    [/track] with its staleness sweep, and the points-of-interest proxy
    behind [/get_nearby_attractions].

    Conventions of the embedding.
    - A Python [float] is a real number: rounding, NaN and the infinities are
      outside the model. Comparisons of floats are the comparisons of [R].
      Over the reals the quantity [a] of the haversine formula never leaves
      [[0, 1]]; in doubles it can exceed 1 by one rounding step for points
      that are almost antipodal, and [math.sqrt] then raises [ValueError].
      Statements that a handler answers are therefore statements about
      the formula over the reals.
    - A value that may be [None] is an [option].
    - A naive [datetime] is the number of microseconds since the start of
      the proleptic calendar, a [timedelta] a number of microseconds.
    - A handler that may raise returns a [result]; what it prints is kept
      in front of the result, so that output printed before an exception is
      not lost.
    - The process-wide dictionary [tourist_state] is a [gmap] passed in and
      out of the handlers.
    - The two HTTP gateways are functions supplied by the environment;
      their replies are typed records in which [None] stands for a key
      that is missing. A reply that holds a JSON null, or a value of
      another type, where the code expects an object, a list or a number
      has no counterpart among these records. *)

From Stdlib Require Import Reals Lra Lia ZArith List Sorted Permutation.
From stdpp Require Import base strings gmap sorting.

Open Scope Z_scope.

(** ** Exceptions and the handler monad *)

Module Py.

Inductive exn : Type :=
| TypeError
| ValueError
| IndexError
| KeyError.

Inductive result (A : Type) : Type :=
| Ok (a : A)
| Raise (e : exn).
Arguments Ok {A} a.
Arguments Raise {A} e.

Definition bind {A B} (m : result A) (k : A -> result B) : result B :=
  match m with
  | Ok a => k a
  | Raise e => Raise e
  end.

(** A computation that prints: the lines written to standard output, then
    the outcome. *)
Definition io (A : Type) : Type := (list string * result A)%type.

Definition ret {A} (a : A) : io A := ([], Ok a).
Definition print (line : string) : io unit := ([line], Ok tt).
Definition lift {A} (m : result A) : io A := ([], m).

Definition io_bind {A B} (m : io A) (k : A -> io B) : io B :=
  match m with
  | (out, Ok a) => let (out', r) := k a in (out ++ out', r)
  | (out, Raise e) => (out, Raise e)
  end.

Definition stdout {A} (m : io A) : list string := fst m.
Definition outcome {A} (m : io A) : result A := snd m.

(** Truth value of a float, of an optional float and of a string. *)
Definition float_truthy (x : R) : bool :=
  if Req_dec_T x 0 then false else true.

Definition opt_float_truthy (x : option R) : bool :=
  match x with
  | Some v => float_truthy v
  | None => false
  end.

Definition str_truthy (s : string) : bool :=
  match s with
  | EmptyString => false
  | String _ _ => true
  end.

Definition float_lt (x y : R) : bool := if Rlt_dec x y then true else false.
Definition float_gt (x y : R) : bool := float_lt y x.

End Py.

Import Py.

Declare Scope py_scope.
Delimit Scope py_scope with py.
Notation "'let?' x ':=' m 'in' k" := (Py.bind m (fun x => k))
  (at level 10, x name, m at level 100, k at level 200) : py_scope.
Notation "'do!' x '<-' m ';' k" := (Py.io_bind m (fun x => k))
  (at level 10, x name, m at level 100, k at level 200) : py_scope.
Notation "'run!' m ';' k" := (Py.io_bind m (fun _ => k))
  (at level 10, m at level 100, k at level 200) : py_scope.
Open Scope py_scope.

(** ** Geo-distance utility *)

Module Geo.

Local Open Scope R_scope.

(** [math.radians]: degrees times pi/180; [None] is not a real number. *)
Definition radians (x : option R) : result R :=
  match x with
  | Some deg => Ok (deg * (PI / 180))
  | None => Raise TypeError
  end.

(** [math.sqrt] raises [ValueError] below zero. *)
Definition py_sqrt (x : R) : result R :=
  if Rlt_dec x 0 then Raise ValueError else Ok (sqrt x).

(** [math.atan2], the angle of the point [(x, y)] in [(-pi, pi]]. *)
Definition atan2 (y x : R) : R :=
  if Rlt_dec 0 x then atan (y / x)
  else if Rlt_dec x 0 then
    (if Rle_dec 0 y then atan (y / x) + PI else atan (y / x) - PI)
  else if Rlt_dec 0 y then PI / 2
  else if Rlt_dec y 0 then - (PI / 2)
  else 0.

Definition R_earth : R := 6371.

(** The quantity [a] of the formula, on angles already in radians. *)
Definition hav_a (lat1_rad lon1_rad lat2_rad lon2_rad : R) : R :=
  let dlon := lon2_rad - lon1_rad in
  let dlat := lat2_rad - lat1_rad in
  sin (dlat / 2) ^ 2 + cos lat1_rad * cos lat2_rad * sin (dlon / 2) ^ 2.

Definition haversine (lat1 lon1 lat2 lon2 : option R) : result R :=
  let? lat1_rad := radians lat1 in
  let? lon1_rad := radians lon1 in
  let? lat2_rad := radians lat2 in
  let? lon2_rad := radians lon2 in
  let a := hav_a lat1_rad lon1_rad lat2_rad lon2_rad in
  let? sa := py_sqrt a in
  let? sb := py_sqrt (1 - a) in
  let c := 2 * atan2 sa sb in
  Ok (R_earth * c).

(** The value [haversine] has on four floats, see [haversine_floats]. *)
Definition km (lat1 lon1 lat2 lon2 : R) : R :=
  let a := hav_a (lat1 * (PI / 180)) (lon1 * (PI / 180))
                 (lat2 * (PI / 180)) (lon2 * (PI / 180)) in
  R_earth * (2 * atan2 (sqrt a) (sqrt (1 - a))).

(** The distance in kilometres between two points given in degrees. *)
Definition distance (A B : R * R) : result R :=
  haversine (Some (fst A)) (Some (snd A)) (Some (fst B)) (Some (snd B)).

End Geo.

(** ** Requests, gateway replies and the environment *)

(** Body of [/calculate_score] and of [/get_nearby_attractions]. *)
Module LocationData.
Record t : Type := mk {
  latitude : R;
  longitude : R;
  destination_lat : option R;
  destination_lon : option R
}.
End LocationData.

(** Body of [/track]. *)
Module TrackingData.
Record t : Type := mk {
  tourist_id : string;
  latitude : R;
  longitude : R;
  destination_lat : option R;
  destination_lon : option R
}.
End TrackingData.

(** The part of a weather reply that the scorer reads. Replies are typed
    after the provider's schema; a field is optional where the code reads
    it with [.get]. The empty object is falsy and is treated by the
    scorer exactly as [None], so both are [None] here. *)
Module Weather.
Record condition : Type := { cond_main : option string }.
Record readings : Type := { temp : option R }.
Record reply : Type := {
  weather : option (list condition);
  main : option readings;
  name : option string
}.
End Weather.

(** The part of a search reply that the proxy reads, typed the same way. *)
Module TomTom.
Record poi_info : Type := { name : option string }.
Record address_info : Type := { freeformAddress : option string }.
Record position_info : Type := { lat : option R; lon : option R }.
Record result_item : Type := {
  poi : option poi_info;
  address : option address_info;
  dist : option R;
  position : option position_info
}.
Record reply : Type := { results : option (list result_item) }.
End TomTom.

(** What the process finds around it: the two credentials, the two remote
    services ([None] stands for a [RequestException]) and the text Python
    prints for a float inside an f-string. *)
Record Env : Type := {
  OPENWEATHER_API_KEY : option string;
  NEXT_PUBLIC_TOMTOM_KEY : option string;
  weather_api : R -> R -> option Weather.reply;
  tomtom_api : string -> R -> R -> option TomTom.reply;
  str_of_float : R -> string
}.

Definition key_present (k : option string) : bool :=
  match k with
  | Some s => str_truthy s
  | None => false
  end.

(** ** Time *)

Module Time.
Definition microsecond : Z := 1.
Definition second : Z := 1000000.
Definition minutes (n : Z) : Z := n * 60 * second.
Definition hours (n : Z) : Z := n * 60 * 60 * second.
(** [datetime.hour]. *)
Definition hour (now : Z) : Z := (now / hours 1) mod 24.
End Time.

(** ** Safety scorer *)

Module Scorer.

Record response : Type := {
  score : Z;
  level : string;
  reasons : list string;
  district : string
}.

Definition get_weather_data (env : Env) (latitude longitude : R)
  : option Weather.reply :=
  if key_present (OPENWEATHER_API_KEY env)
  then weather_api env latitude longitude
  else None.

Definition lat_to_check (location_data : LocationData.t) : R :=
  match LocationData.destination_lat location_data with
  | Some d => d
  | None => LocationData.latitude location_data
  end.

Definition lon_to_check (location_data : LocationData.t) : R :=
  match LocationData.destination_lon location_data with
  | Some d => d
  | None => LocationData.longitude location_data
  end.

Definition adverse_conditions : list string :=
  ["Rain"; "Thunderstorm"; "Fog"; "Mist"; "Snow"; "Drizzle"].

(** [weather.get("weather", [{}])[0].get("main")] *)
Definition main_weather_of (w : Weather.reply) : result (option string) :=
  match Weather.weather w with
  | None => Ok None
  | Some [] => Raise IndexError
  | Some (c :: _) => Ok (Weather.cond_main c)
  end.

(** [weather.get("main", {}).get("temp")] *)
Definition temp_of (w : Weather.reply) : option R :=
  match Weather.main w with
  | Some m => Weather.temp m
  | None => None
  end.

Definition is_adverse (main_weather : option string) : bool :=
  match main_weather with
  | Some s => bool_decide (s ∈ adverse_conditions)
  | None => false
  end.

Definition is_hot (temp : option R) : bool :=
  match temp with
  | Some t => float_truthy t && float_gt t 35
  | None => false
  end.

Definition weather_reason (main_weather : option string) : string :=
  "Adverse weather predicted: " +:+ default "None" main_weather +:+ ".".

Definition heat_reason (env : Env) (temp : option R) : string :=
  "Potential for extreme heat: "
    +:+ from_option (str_of_float env) "None" temp +:+ "°C.".

Definition night_reason : string := "Late night travel increases risk.".

(** Lines 85 to 95: the deductions read off the weather reply. *)
Definition weather_rules (env : Env) (weather : option Weather.reply)
    (st : Z * list string) : result (Z * list string) :=
  match weather with
  | Some w =>
      let? main_weather := main_weather_of w in
      let temp := temp_of w in
      let st :=
        if is_adverse main_weather
        then (fst st - 25, snd st ++ [weather_reason main_weather])
        else st in
      let st :=
        if is_hot temp
        then (fst st - 15, snd st ++ [heat_reason env temp])
        else st in
      Ok st
  | None => Ok st
  end.

(** Lines 98 to 101: the deduction for the hour of the serving process. *)
Definition night_rule (now : Z) (st : Z * list string) : Z * list string :=
  let current_hour := Time.hour now in
  if (current_hour <? 6) || (22 <? current_hour)
  then (fst st - 30, snd st ++ [night_reason])
  else st.

(** The pair [safety_score], [reasons] when line 103 is reached. *)
Definition score_before_clamp (env : Env) (now : Z)
    (location_data : LocationData.t) : result (Z * list string) :=
  let weather :=
    get_weather_data env (lat_to_check location_data)
                         (lon_to_check location_data) in
  let? st := weather_rules env weather (100, []) in
  Ok (night_rule now st).

Definition level_of (safety_score : Z) : string :=
  if 65 <? safety_score then "Safe"
  else if 35 <? safety_score then "Caution"
  else "Unsafe".

Definition district_of (weather : option Weather.reply) : string :=
  match weather with
  | Some w => default "Unknown Area" (Weather.name w)
  | None => "N/A"
  end.

Definition calculate_safety_score (env : Env) (now : Z)
    (location_data : LocationData.t) : result response :=
  let weather :=
    get_weather_data env (lat_to_check location_data)
                         (lon_to_check location_data) in
  let? st := score_before_clamp env now location_data in
  let safety_score := Z.max 0 (fst st) in
  Ok {| score := safety_score;
        level := level_of safety_score;
        reasons := snd st;
        district := district_of weather |}.

End Scorer.

(** ** Tourist state store, anomaly detector and staleness sweep *)

Module Tracker.

(** The dictionary stored under ["destination"]. *)
Record destination_t : Type := {
  dest_lat : option R;
  dest_lon : option R
}.

(** One entry of [tourist_state]. *)
Record state_record : Type := {
  lat : R;
  lon : R;
  timestamp : Z;
  destination : option destination_t
}.

Record response : Type := {
  status : string;
  anomalies : list string
}.

Definition alert (anomaly : string) : string := "🚨 ANOMALY: " +:+ anomaly.

Definition inactivity_anomaly (tourist_id : string) : string :=
  "Prolonged inactivity detected for tourist " +:+ tourist_id +:+ ".".

Definition deviation_anomaly (tourist_id : string) : string :=
  "Route deviation detected for tourist " +:+ tourist_id +:+ ".".

Definition dropoff_anomaly (tourist_id : string) : string :=
  "Sudden location drop-off for tourist " +:+ tourist_id +:+ ".".

(** Lines 124 to 130. *)
Definition check_inactivity (now : Z) (data : TrackingData.t)
    (last_update : state_record) (anomalies_found : list string)
  : io (list string) :=
  let tourist_id := TrackingData.tourist_id data in
  let time_diff_inactive := now - timestamp last_update in
  do! distance_moved <-
    lift (Geo.haversine (Some (TrackingData.latitude data))
                        (Some (TrackingData.longitude data))
                        (Some (lat last_update))
                        (Some (lon last_update)));
  if (Time.minutes 20 <? time_diff_inactive)
     && float_lt distance_moved 0.05
  then
    let anomaly := inactivity_anomaly tourist_id in
    run! print (alert anomaly);
    ret (anomalies_found ++ [anomaly])
  else ret anomalies_found.

(** The guard of line 133: a non-zero [destination_lat] in the report and
    a stored destination. *)
Definition deviation_guard (data : TrackingData.t)
    (last_update : state_record) : bool :=
  opt_float_truthy (TrackingData.destination_lat data)
  && bool_decide (is_Some (destination last_update)).

(** Lines 133 to 140. *)
Definition check_deviation (data : TrackingData.t)
    (last_update : state_record) (anomalies_found : list string)
  : io (list string) :=
  let tourist_id := TrackingData.tourist_id data in
  if deviation_guard data last_update
  then
    do! current_dist_to_dest <-
      lift (Geo.haversine (Some (TrackingData.latitude data))
                          (Some (TrackingData.longitude data))
                          (TrackingData.destination_lat data)
                          (TrackingData.destination_lon data));
    do! prev_dist_to_dest <-
      lift (Geo.haversine (Some (lat last_update))
                          (Some (lon last_update))
                          (TrackingData.destination_lat data)
                          (TrackingData.destination_lon data));
    if float_gt current_dist_to_dest (prev_dist_to_dest + 0.2)
    then
      let anomaly := deviation_anomaly tourist_id in
      run! print (alert anomaly);
      ret (anomalies_found ++ [anomaly])
    else ret anomalies_found
  else ret anomalies_found.

(** Lines 142 to 147. *)
Definition new_record (now : Z) (data : TrackingData.t) : state_record :=
  {| lat := TrackingData.latitude data;
     lon := TrackingData.longitude data;
     timestamp := now;
     destination :=
       if opt_float_truthy (TrackingData.destination_lat data)
       then Some {| dest_lat := TrackingData.destination_lat data;
                    dest_lon := TrackingData.destination_lon data |}
       else None |}.

(** The handler of [/track]: the new store and the response body. The
    sweep it schedules runs after the response, see [track_then_sweep]. *)
Definition track_location_and_detect_anomalies
    (tourist_state : gmap string state_record) (now : Z)
    (data : TrackingData.t)
  : io (gmap string state_record * response) :=
  let tourist_id := TrackingData.tourist_id data in
  let anomalies_found := [] in
  do! anomalies_found <-
    match tourist_state !! tourist_id with
    | Some last_update =>
        do! anomalies_found <-
          check_inactivity now data last_update anomalies_found;
        check_deviation data last_update anomalies_found
    | None => ret anomalies_found
    end;
  let tourist_state := <[tourist_id := new_record now data]> tourist_state in
  ret (tourist_state,
       {| status := "location updated"; anomalies := anomalies_found |}).

(** One turn of the loop of [check_for_sudden_dropoffs]. A key of the
    snapshot that is no longer in the dictionary would raise [KeyError]. *)
Definition sweep_step (now : Z) (tourist_state : gmap string state_record)
    (tourist_id : string) : io (gmap string state_record) :=
  let stale_threshold := Time.minutes 15 in
  match tourist_state !! tourist_id with
  | Some r =>
      if stale_threshold <? now - timestamp r
      then
        run! print (alert (dropoff_anomaly tourist_id));
        ret (delete tourist_id tourist_state)
      else ret tourist_state
  | None => lift (Raise KeyError)
  end.

Fixpoint sweep_loop (now : Z) (keys : list string)
    (tourist_state : gmap string state_record)
  : io (gmap string state_record) :=
  match keys with
  | [] => ret tourist_state
  | tourist_id :: keys =>
      do! tourist_state <- sweep_step now tourist_state tourist_id;
      sweep_loop now keys tourist_state
  end.

(** The sweep walks a snapshot of the keys. The order of the snapshot,
    insertion order in Python, only decides the order of the printed
    lines. *)
Definition check_for_sudden_dropoffs (now : Z)
    (tourist_state : gmap string state_record)
  : io (gmap string state_record) :=
  sweep_loop now (map_to_list tourist_state).*1 tourist_state.

(** A request followed by the background task it schedules, which runs
    at [later] once the response is built. *)
Definition track_then_sweep (tourist_state : gmap string state_record)
    (now later : Z) (data : TrackingData.t)
  : io (gmap string state_record * response) :=
  do! r <- track_location_and_detect_anomalies tourist_state now data;
  do! tourist_state <- check_for_sudden_dropoffs later (fst r);
  ret (tourist_state, snd r).

End Tracker.

(** ** Points-of-interest proxy *)

Module Poi.

(** One entry of the returned array. *)
Record attraction : Type := {
  name : string;
  address : option string;
  distance : option R;
  lat : option R;
  lon : option R
}.

(** The body of the response: the error object of line 168 or the array. *)
Inductive response : Type :=
| ErrorBody (message : string)
| Attractions (l : list attraction).

Definition search_keywords : list string :=
  ["park"; "museum"; "beach"; "temple"; "zoo"; "garden";
   "historical site"; "aquarium"; "monument"; "art gallery"].

(** [result.get("poi", {}).get("name")] *)
Definition poi_name_of (result : TomTom.result_item) : option string :=
  match TomTom.poi result with
  | Some p => TomTom.name p
  | None => None
  end.

(** Lines 192 to 198. *)
Definition attraction_of (poi_name : string) (result : TomTom.result_item)
  : attraction :=
  {| name := poi_name;
     address :=
       match TomTom.address result with
       | Some a => TomTom.freeformAddress a
       | None => None
       end;
     distance := TomTom.dist result;
     lat :=
       match TomTom.position result with
       | Some p => TomTom.lat p
       | None => None
       end;
     lon :=
       match TomTom.position result with
       | Some p => TomTom.lon p
       | None => None
       end |}.

(** The two accumulators of the loops: [attractions] and [seen_names]. *)
Definition acc : Type := (list attraction * gset string)%type.

(** Lines 190 to 199, the body of the inner loop. *)
Definition visit_result (st : acc) (result : TomTom.result_item) : acc :=
  let '(attractions, seen_names) := st in
  match poi_name_of result with
  | Some poi_name =>
      if str_truthy poi_name && bool_decide (poi_name ∉ seen_names)
      then (attractions ++ [attraction_of poi_name result],
            {[ poi_name ]} ∪ seen_names)
      else st
  | None => st
  end.

(** The results a reply contributes: none when the request failed, or when
    ["results"] is missing or empty. *)
Definition results_of (r : option TomTom.reply) : list TomTom.result_item :=
  match r with
  | Some data => default [] (TomTom.results data)
  | None => []
  end.

(** Lines 174 to 202, the body of the outer loop. *)
Definition visit_keyword (env : Env) (location_data : LocationData.t)
    (st : acc) (keyword : string) : acc :=
  let reply :=
    tomtom_api env keyword (LocationData.latitude location_data)
                           (LocationData.longitude location_data) in
  fold_left visit_result (results_of reply) st.

(** The comparison [list.sort] makes between two keys; [None] cannot be
    ordered. *)
Definition key_lt (a b : option R) : result bool :=
  match a, b with
  | Some x, Some y => Ok (float_lt x y)
  | _, _ => Raise TypeError
  end.

(** [list.sort] is stable and only uses [<] on the keys: an element goes
    in front of the first one it is smaller than. *)
Fixpoint insert_by_distance (x : attraction) (sorted : list attraction)
  : result (list attraction) :=
  match sorted with
  | [] => Ok [x]
  | y :: rest =>
      let? smaller := key_lt (distance x) (distance y) in
      if smaller then Ok (x :: y :: rest)
      else
        let? rest := insert_by_distance x rest in
        Ok (y :: rest)
  end.

(** The next element goes into what is sorted so far, unless a
    comparison has raised already. *)
Definition sort_step (sorted : result (list attraction)) (x : attraction)
  : result (list attraction) :=
  let? sorted := sorted in insert_by_distance x sorted.

Definition sort_by_distance (l : list attraction)
  : result (list attraction) :=
  fold_left sort_step l (Ok []).

Definition get_nearby_attractions (env : Env)
    (location_data : LocationData.t) : result response :=
  if negb (key_present (NEXT_PUBLIC_TOMTOM_KEY env))
  then Ok (ErrorBody "Server configuration issue.")
  else
    let '(attractions, _) :=
      fold_left (visit_keyword env location_data) search_keywords
                ([], ∅) in
    let? attractions := sort_by_distance attractions in
    Ok (Attractions (take 30 attractions)).

End Poi.

(** ** The two conditions of the anomaly detector, as the checks decide them *)

Module TrackerSpec.

Import Tracker.
Local Open Scope R_scope.

(** More than 20 minutes since the stored timestamp and less than
    0.05 km between the stored and the reported position. *)
Definition inactive (now : Z) (data : TrackingData.t)
    (last_update : state_record) : bool :=
  (Time.minutes 20 <? now - timestamp last_update)%Z
  && float_lt (Geo.km (TrackingData.latitude data)
                      (TrackingData.longitude data)
                      (lat last_update) (lon last_update)) 0.05.

(** The reported position is more than 0.2 km farther from the
    destination [(dlat, dlon)] than the stored position is. *)
Definition deviates (data : TrackingData.t) (last_update : state_record)
    (dlat dlon : R) : bool :=
  float_gt (Geo.km (TrackingData.latitude data)
                   (TrackingData.longitude data) dlat dlon)
           (Geo.km (lat last_update) (lon last_update) dlat dlon + 0.2).

Definition when (b : bool) (anomaly : string) : list string :=
  if b then [anomaly] else [].

(** The test of the sweep on one record. *)
Definition stale (now : Z) (r : state_record) : bool :=
  (Time.minutes 15 <? now - timestamp r)%Z.

(** What one pass of the sweep over [keys] leaves under a key. *)
Definition swept (now : Z) (keys : list string)
    (st : gmap string state_record) (k : string) : option state_record :=
  match st !! k with
  | Some r => if bool_decide (k ∈ keys) && stale now r then None else Some r
  | None => None
  end.

End TrackerSpec.

(** ** The traversal of the proxy and the order of its output *)

Module PoiSpec.

Import Poi.
Local Open Scope R_scope.

(** Every result the gateway returned for the request, in the order the
    loops visit them: keyword by keyword, then in the order of the reply. *)
Definition all_results (env : Env) (location_data : LocationData.t)
  : list TomTom.result_item :=
  flat_map (fun keyword =>
              results_of (tomtom_api env keyword
                            (LocationData.latitude location_data)
                            (LocationData.longitude location_data)))
           search_keywords.

(** The first visited result that carries the name [n]. *)
Definition first_named (n : string) (rs : list TomTom.result_item)
  : option TomTom.result_item :=
  find (fun r => bool_decide (poi_name_of r = Some n)) rs.

(** Both distances are reported and the first is not the larger. *)
Definition dist_le (a b : attraction) : Prop :=
  match distance a, distance b with
  | Some x, Some y => x <= y
  | _, _ => False
  end.

(** What holds of the accumulators once the results [pre] are visited. *)
Record visited (pre : list TomTom.result_item) (st : acc) : Prop := {
  seen_are_names : forall n, n ∈ st.2 <-> n ∈ name <$> st.1;
  names_once : NoDup (name <$> st.1);
  from_first : forall a, a ∈ st.1 ->
    exists r, first_named (name a) pre = Some r /\
              a = attraction_of (name a) r;
  named_are_seen : forall r n, r ∈ pre -> poi_name_of r = Some n ->
    str_truthy n = true -> n ∈ st.2
}.

End PoiSpec.

(** ** Concrete situations used below *)

Module Scenarios.

Definition rainy_reply : Weather.reply :=
  {| Weather.weather := Some [ {| Weather.cond_main := Some "Rain" |} ];
     Weather.main := Some {| Weather.temp := Some 40%R |};
     Weather.name := Some "Vijayawada" |}.

Definition rainy_env : Env :=
  {| OPENWEATHER_API_KEY := Some "k";
     NEXT_PUBLIC_TOMTOM_KEY := None;
     weather_api := fun _ _ => Some rainy_reply;
     tomtom_api := fun _ _ _ => None;
     str_of_float := fun _ => "40.0" |}.

Definition here : LocationData.t := LocationData.mk 16.5 80.6 None None.

Definition mild_rain_reply : Weather.reply :=
  {| Weather.weather := Some [ {| Weather.cond_main := Some "Rain" |} ];
     Weather.main := Some {| Weather.temp := Some 24%R |};
     Weather.name := Some "Vijayawada" |}.

Definition mild_rain_env : Env :=
  {| OPENWEATHER_API_KEY := Some "k";
     NEXT_PUBLIC_TOMTOM_KEY := None;
     weather_api := fun _ _ => Some mild_rain_reply;
     tomtom_api := fun _ _ _ => None;
     str_of_float := fun _ => "24.0" |}.

(** A gateway on which it rains at one point only. *)
Definition rain_only_at (x y : R) : Env :=
  {| OPENWEATHER_API_KEY := Some "k";
     NEXT_PUBLIC_TOMTOM_KEY := None;
     weather_api := fun a b =>
       if Req_dec_T a x
       then if Req_dec_T b y then Some mild_rain_reply else None
       else None;
     tomtom_api := fun _ _ _ => None;
     str_of_float := fun _ => "24.0" |}.

(** A request that gives the latitude of its destination only. *)
Definition half_destination : LocationData.t :=
  LocationData.mk 16.5 80.6 (Some 17%R) None.

(** A tourist on the equator, first heading north, then told to go to
    the point where the equator meets the prime meridian. *)
Definition heading_north : TrackingData.t :=
  TrackingData.mk "t1" 0 0 (Some 0.5%R) (Some 0%R).

Definition to_null_island : TrackingData.t :=
  TrackingData.mk "t1" 0 1 (Some 0%R) (Some 0%R).

(** A report that names the latitude of its destination only. *)
Definition latitude_only : TrackingData.t :=
  TrackingData.mk "t1" 0 0 (Some 0.5%R) None.

(** A tourist who has stayed within ten metres for 25 minutes. *)
Definition resting_before : Tracker.state_record :=
  {| Tracker.lat := 0; Tracker.lon := 0; Tracker.timestamp := 0;
     Tracker.destination := None |}.

Definition resting_now : TrackingData.t :=
  TrackingData.mk "t1" 0 0.00009 None None.

(** Two searches that both find the place called Lakeside, the second
    one nearer than the first, and a result without a name. *)
Definition place (n : string) (street : string) (metres : R)
  : TomTom.result_item :=
  {| TomTom.poi := Some {| TomTom.name := Some n |};
     TomTom.address := Some {| TomTom.freeformAddress := Some street |};
     TomTom.dist := Some metres;
     TomTom.position := Some {| TomTom.lat := Some 16.5%R;
                                TomTom.lon := Some 80.6%R |} |}.

Definition unnamed_result : TomTom.result_item :=
  {| TomTom.poi := None;
     TomTom.address := None;
     TomTom.dist := Some 10%R;
     TomTom.position := None |}.

Definition lakeside_from_park := place "Lakeside" "Park Road" 300.
Definition fort := place "Fort" "Hill Road" 100.
Definition lakeside_from_museum := place "Lakeside" "Museum Road" 50.
Definition gallery := place "Gallery" "Canal Road" 200.

Definition two_searches_env : Env :=
  {| OPENWEATHER_API_KEY := None;
     NEXT_PUBLIC_TOMTOM_KEY := Some "k";
     weather_api := fun _ _ => None;
     tomtom_api := fun keyword _ _ =>
       if String.eqb keyword "park"
       then Some {| TomTom.results := Some [lakeside_from_park; fort] |}
       else if String.eqb keyword "museum"
       then Some {| TomTom.results :=
                      Some [unnamed_result; lakeside_from_museum; gallery] |}
       else None;
     str_of_float := fun _ => "" |}.

End Scenarios.

(** ** Further situations *)

Module MoreScenarios.

(** A process without the weather credential. *)
Definition no_weather_key_env : Env :=
  {| OPENWEATHER_API_KEY := None;
     NEXT_PUBLIC_TOMTOM_KEY := Some "k";
     weather_api := fun _ _ => Some Scenarios.rainy_reply;
     tomtom_api := fun _ _ _ => None;
     str_of_float := fun _ => "" |}.

(** Rain first and a second entry after it. *)
Definition rain_then_clouds_reply : Weather.reply :=
  {| Weather.weather := Some [ {| Weather.cond_main := Some "Rain" |};
                               {| Weather.cond_main := Some "Clouds" |} ];
     Weather.main := Some {| Weather.temp := Some 24%R |};
     Weather.name := Some "Vijayawada" |}.

Definition rain_then_clouds_env : Env :=
  {| OPENWEATHER_API_KEY := Some "k";
     NEXT_PUBLIC_TOMTOM_KEY := None;
     weather_api := fun _ _ => Some rain_then_clouds_reply;
     tomtom_api := fun _ _ _ => None;
     str_of_float := fun _ => "24.0" |}.

(** A stored record with a destination, and a report that keeps the
    position of that record and names a full destination. *)
Definition at_origin_with_destination : Tracker.state_record :=
  {| Tracker.lat := 0; Tracker.lon := 0; Tracker.timestamp := 0;
     Tracker.destination :=
       Some {| Tracker.dest_lat := Some 0.5%R;
               Tracker.dest_lon := Some 0%R |} |}.

Definition still_at_origin : TrackingData.t :=
  TrackingData.mk "t1" 0 0 (Some 0.5%R) (Some 0%R).

(** A report one degree south of the stored position, away from the
    destination, which lies north on the same meridian. *)
Definition walked_south : TrackingData.t :=
  TrackingData.mk "t1" (-1) 0 (Some 0.5%R) (Some 0%R).

(** Two stores that agree on tourist t1 and differ elsewhere. *)
Definition alone : gmap string Tracker.state_record :=
  {[ "t1" := at_origin_with_destination ]}.

Definition with_company : gmap string Tracker.state_record :=
  <[ "t2" := Scenarios.resting_before ]> alone.

End MoreScenarios.

(** ** The lines of the sweep *)

Module SweepSpec.

Import Tracker TrackerSpec.

(** The key holds a record that the sweep at [now] finds stale. *)
Definition stale_key (now : Z) (st : gmap string state_record)
    (k : string) : bool :=
  match st !! k with
  | Some r => stale now r
  | None => false
  end.

Definition dropoff_line (k : string) : string := alert (dropoff_anomaly k).

End SweepSpec.

(** ** What the proxy keeps before it sorts *)

Module PoiKept.

Import Poi.

(** The list [attractions] when line 204 is reached. *)
Definition kept (env : Env) (location_data : LocationData.t)
  : list attraction :=
  fst (fold_left (visit_keyword env location_data) search_keywords ([], ∅)).

(** A gateway that fails for every keyword. *)
Definition all_failing_env : Env :=
  {| OPENWEATHER_API_KEY := None;
     NEXT_PUBLIC_TOMTOM_KEY := Some "k";
     weather_api := fun _ _ => None;
     tomtom_api := fun _ _ _ => None;
     str_of_float := fun _ => "" |}.

(** Two named results, the second without a distance. *)
Definition no_distance_result : TomTom.result_item :=
  {| TomTom.poi := Some {| TomTom.name := Some "Pier" |};
     TomTom.address := None;
     TomTom.dist := None;
     TomTom.position := None |}.

Definition missing_distance_env : Env :=
  {| OPENWEATHER_API_KEY := None;
     NEXT_PUBLIC_TOMTOM_KEY := Some "k";
     weather_api := fun _ _ => None;
     tomtom_api := fun keyword _ _ =>
       if String.eqb keyword "park"
       then Some {| TomTom.results :=
                      Some [Scenarios.fort; no_distance_result] |}
       else None;
     str_of_float := fun _ => "" |}.

End PoiKept.

(** ** The response as a function of the weather reply *)

Module ScorerSpec.

Import Scorer.

(** What lines 90 to 110 make of a reply [w] whose first condition is
    [main_weather], at the time [now]. *)
Definition response_for_reply (env : Env) (now : Z) (w : Weather.reply)
    (main_weather : option string) : response :=
  let adverse := is_adverse main_weather in
  let hot := is_hot (temp_of w) in
  let night := (Time.hour now <? 6) || (22 <? Time.hour now) in
  let safety_score :=
    100 - (if adverse then 25 else 0) - (if hot then 15 else 0)
        - (if night then 30 else 0) in
  {| score := safety_score;
     level := level_of safety_score;
     reasons :=
       (if adverse then [weather_reason main_weather] else [])
       ++ (if hot then [heat_reason env (temp_of w)] else [])
       ++ (if night then [night_reason] else []);
     district := default "Unknown Area" (Weather.name w) |}.

(** A reply whose list of conditions is empty. *)
Definition no_conditions_reply : Weather.reply :=
  {| Weather.weather := Some [];
     Weather.main := Some {| Weather.temp := Some 24%R |};
     Weather.name := Some "Vijayawada" |}.

Definition no_conditions_env : Env :=
  {| OPENWEATHER_API_KEY := Some "k";
     NEXT_PUBLIC_TOMTOM_KEY := None;
     weather_api := fun _ _ => Some no_conditions_reply;
     tomtom_api := fun _ _ _ => None;
     str_of_float := fun _ => "24.0" |}.

End ScorerSpec.
(** *** Facts about the distance utility *)

Module GeoFacts.

Import Geo.
Local Open Scope R_scope.

Lemma hav_a_sym (p1 l1 p2 l2 : R) : hav_a p1 l1 p2 l2 = hav_a p2 l2 p1 l1.
Proof.
  unfold hav_a.
  replace ((p1 - p2) / 2) with (- ((p2 - p1) / 2)) by lra.
  replace ((l1 - l2) / 2) with (- ((l2 - l1) / 2)) by lra.
  rewrite !sin_neg. ring.
Qed.

(** [a] is a convex combination of two squared sines, so it stays in
    [[0, 1]] whatever the angles are, in range or not. *)
Lemma hav_a_convex (p1 l1 p2 l2 : R) :
  hav_a p1 l1 p2 l2 =
  (1 - sin ((l2 - l1) / 2) ^ 2) * sin ((p2 - p1) / 2) ^ 2
  + sin ((l2 - l1) / 2) ^ 2 * ((1 + cos (p1 + p2)) / 2).
Proof.
  unfold hav_a.
  assert (Hprod : cos p1 * cos p2 = (cos (p2 - p1) + cos (p1 + p2)) / 2).
  { rewrite cos_minus, cos_plus. lra. }
  assert (Hdbl : cos (p2 - p1) = 1 - 2 * sin ((p2 - p1) / 2) ^ 2).
  { replace (p2 - p1) with (2 * ((p2 - p1) / 2)) at 1 by lra.
    rewrite cos_2a_sin. ring. }
  rewrite Hprod, Hdbl. field.
Qed.

Lemma sin_sq_bounds (x : R) : 0 <= sin x ^ 2 <= 1.
Proof.
  pose proof (sin2_cos2 x) as H. unfold Rsqr in H.
  pose proof (pow2_ge_0 (sin x)). pose proof (pow2_ge_0 (cos x)).
  simpl in *. lra.
Qed.

Lemma hav_a_bounds (p1 l1 p2 l2 : R) : 0 <= hav_a p1 l1 p2 l2 <= 1.
Proof.
  rewrite hav_a_convex.
  pose proof (sin_sq_bounds ((l2 - l1) / 2)) as Hs.
  pose proof (sin_sq_bounds ((p2 - p1) / 2)) as Ht.
  pose proof (COS_bound (p1 + p2)) as Hc.
  split; nra.
Qed.

Lemma py_sqrt_nonneg (x : R) : 0 <= x -> py_sqrt x = Ok (sqrt x).
Proof.
  intros Hx. unfold py_sqrt. destruct (Rlt_dec x 0); [lra | reflexivity].
Qed.

(** On floats taken as reals the utility never raises; its value is the
    closed formula. *)
Lemma haversine_floats (lat1 lon1 lat2 lon2 : R) :
  haversine (Some lat1) (Some lon1) (Some lat2) (Some lon2) =
  Ok (km lat1 lon1 lat2 lon2).
Proof.
  unfold haversine, km; simpl.
  pose proof (hav_a_bounds (lat1 * (PI / 180)) (lon1 * (PI / 180))
                (lat2 * (PI / 180)) (lon2 * (PI / 180))) as [H0 H1].
  rewrite (py_sqrt_nonneg _ H0); simpl.
  rewrite py_sqrt_nonneg by lra. reflexivity.
Qed.

Lemma haversine_none_lon2 (lat1 lon1 lat2 : R) :
  haversine (Some lat1) (Some lon1) (Some lat2) None = Raise TypeError.
Proof. reflexivity. Qed.

Lemma atan2_0_1 : atan2 0 1 = 0.
Proof.
  unfold atan2. destruct (Rlt_dec 0 1); [| lra].
  replace (0 / 1) with 0 by field. apply atan_0.
Qed.

Lemma atan2_1_0 : atan2 1 0 = PI / 2.
Proof.
  unfold atan2.
  destruct (Rlt_dec 0 0); [lra |].
  destruct (Rlt_dec 0 1); [reflexivity | lra].
Qed.

Lemma hav_a_same (p l : R) : hav_a p l p l = 0.
Proof.
  unfold hav_a.
  replace ((p - p) / 2) with 0 by lra.
  replace ((l - l) / 2) with 0 by lra.
  rewrite sin_0. ring.
Qed.

Lemma km_same (p l : R) : km p l p l = 0.
Proof.
  unfold km. cbv zeta. rewrite hav_a_same.
  replace (1 - 0) with 1 by lra.
  rewrite sqrt_0, sqrt_1, atan2_0_1. unfold R_earth. ring.
Qed.

Lemma km_sym (p1 l1 p2 l2 : R) : km p1 l1 p2 l2 = km p2 l2 p1 l1.
Proof. unfold km. cbv zeta. rewrite (hav_a_sym (p2 * _)). reflexivity. Qed.

(** The angle of a point of the unit circle in the first quadrant. *)
Lemma atan2_sin_cos (x : R) : 0 <= x <= PI / 2 -> atan2 (sin x) (cos x) = x.
Proof.
  intros [H0 H2]. unfold atan2.
  destruct (Rlt_dec 0 (cos x)) as [Hc | Hc].
  - destruct (Req_dec x (PI / 2)) as [-> | Hne].
    + rewrite cos_PI2 in Hc. lra.
    + apply atan_tan. pose proof PI_RGT_0. lra.
  - assert (Hx : x = PI / 2).
    { destruct (Req_dec x (PI / 2)) as [E | Hne]; [exact E |].
      exfalso. apply Hc. apply cos_gt_0; pose proof PI_RGT_0; lra. }
    subst x. rewrite cos_PI2, sin_PI2.
    destruct (Rlt_dec 0 0); [lra |].
    destruct (Rlt_dec 0 1); [reflexivity | lra].
Qed.

(** Along the equator the distance is the radius times the difference of
    longitude in radians, up to half a turn. *)
Lemma km_equator (l1 l2 : R) :
  l1 <= l2 <= l1 + 180 -> km 0 l1 0 l2 = R_earth * ((l2 - l1) * (PI / 180)).
Proof.
  intros [Hle Hhalf]. unfold km. cbv zeta.
  set (x := (l2 * (PI / 180) - l1 * (PI / 180)) / 2).
  assert (Hx : 0 <= x <= PI / 2).
  { unfold x. pose proof PI_RGT_0. split; nra. }
  assert (Hs : 0 <= sin x).
  { apply sin_ge_0; pose proof PI_RGT_0; lra. }
  assert (Hc : 0 <= cos x).
  { apply cos_ge_0; pose proof PI_RGT_0; lra. }
  assert (Ha : hav_a (0 * (PI / 180)) (l1 * (PI / 180))
                     (0 * (PI / 180)) (l2 * (PI / 180)) = sin x * sin x).
  { unfold hav_a. fold x.
    replace ((0 * (PI / 180) - 0 * (PI / 180)) / 2) with 0 by lra.
    replace (0 * (PI / 180)) with 0 by lra.
    rewrite sin_0, cos_0. ring. }
  rewrite Ha.
  assert (Hb : 1 - sin x * sin x = cos x * cos x).
  { pose proof (sin2_cos2 x) as H. unfold Rsqr in H. lra. }
  rewrite Hb, !sqrt_square by assumption.
  rewrite atan2_sin_cos by assumption.
  unfold x. field.
Qed.

(** One degree of longitude on the equator, about 111.19 km. *)
Lemma one_degree_on_equator :
  distance (0, 0) (0, 1) = Ok (R_earth * (PI / 180)).
Proof.
  unfold distance. cbn [fst snd].
  rewrite haversine_floats, km_equator by lra. f_equal. ring.
Qed.

Lemma distance_same (A : R * R) : distance A A = Ok 0.
Proof.
  unfold distance. rewrite haversine_floats, km_same. reflexivity.
Qed.

Lemma distance_sym (A B : R * R) : distance A B = distance B A.
Proof.
  unfold distance. rewrite !haversine_floats, km_sym. reflexivity.
Qed.

(** C9: the distance utility is symmetric in its two points and is zero
    from a point to itself. *)
Theorem haversine_symmetric_and_zero_on_diagonal :
  (forall A B : R * R, distance A B = distance B A) /\
  (forall A : R * R, distance A A = Ok 0).
Proof. split; [apply distance_sym | apply distance_same]. Qed.

End GeoFacts.

(** *** Facts about the safety scorer *)

Module ScorerFacts.

Import Scorer Scenarios.

Lemma float_gt_false (x y : R) : (x <= y)%R -> float_gt x y = false.
Proof.
  intros H. unfold float_gt, float_lt.
  destruct (Rlt_dec y x); [lra | reflexivity].
Qed.

Lemma float_gt_true (x y : R) : (y < x)%R -> float_gt x y = true.
Proof.
  intros H. unfold float_gt, float_lt.
  destruct (Rlt_dec y x); [reflexivity | lra].
Qed.

Lemma float_truthy_true (x : R) : x <> 0%R -> float_truthy x = true.
Proof.
  intros H. unfold float_truthy. destruct (Req_dec_T x 0); [lra | reflexivity].
Qed.

Lemma float_truthy_zero : float_truthy 0 = false.
Proof.
  unfold float_truthy. destruct (Req_dec_T 0 0); [reflexivity | lra].
Qed.

Lemma is_hot_false (t : R) : (t <= 35)%R -> is_hot (Some t) = false.
Proof.
  intros H. unfold is_hot. rewrite (float_gt_false _ _ H).
  apply andb_false_r.
Qed.

Lemma is_hot_true (t : R) : (35 < t)%R -> is_hot (Some t) = true.
Proof.
  intros H. unfold is_hot.
  rewrite float_truthy_true by lra. rewrite float_gt_true by lra.
  reflexivity.
Qed.

(** Each rule takes its weight off the score or leaves it alone. *)
Lemma weather_rules_score env weather s rs st :
  weather_rules env weather (s, rs) = Ok st ->
  s - 40 <= fst st <= s.
Proof.
  unfold weather_rules. destruct weather as [w |].
  - destruct (main_weather_of w) as [mw | e]; simpl; [| discriminate].
    destruct (is_adverse mw), (is_hot (temp_of w));
      intros [= <-]; simpl; lia.
  - intros [= <-]; simpl; lia.
Qed.

Lemma night_rule_score now st :
  fst st - 30 <= fst (night_rule now st) <= fst st.
Proof.
  unfold night_rule.
  destruct ((Time.hour now <? 6) || (22 <? Time.hour now)); simpl; lia.
Qed.

(** The scorer raises only on a reply whose ["weather"] list is empty. *)
Lemma score_before_clamp_raises env now data e :
  score_before_clamp env now data = Raise e ->
  e = IndexError /\
  exists w, get_weather_data env (lat_to_check data) (lon_to_check data)
            = Some w /\ Weather.weather w = Some [].
Proof.
  unfold score_before_clamp, weather_rules.
  destruct (get_weather_data _ _ _) as [w |]; simpl; [| discriminate].
  unfold main_weather_of.
  destruct (Weather.weather w) as [[| c l] |] eqn:Hw; simpl;
    try discriminate.
  intros [= <-]. split; [reflexivity |]. exists w. auto.
Qed.

(** C7: whenever the scorer reaches the clamp the score is between 30
    and 100, so the clamp leaves it as it is and the returned score,
    which is that same value, is not below 0. *)
Theorem clamp_is_unreachable env now data st :
  score_before_clamp env now data = Ok st ->
  30 <= fst st <= 100 /\
  Z.max 0 (fst st) = fst st /\
  exists resp,
    calculate_safety_score env now data = Ok resp /\
    score resp = fst st /\ 0 <= score resp.
Proof.
  intros Hrun.
  assert (Hrange : 30 <= fst st <= 100).
  { unfold score_before_clamp in Hrun.
    destruct (weather_rules env _ (100, [])) as [st0 | e] eqn:Hw;
      simpl in Hrun; [| discriminate].
    injection Hrun as <-.
    apply weather_rules_score in Hw.
    pose proof (night_rule_score now st0). lia. }
  split; [exact Hrange |]. split; [lia |].
  unfold calculate_safety_score. rewrite Hrun; simpl.
  eexists; split; [reflexivity |]. simpl. lia.
Qed.

Lemma rainy_hot_night_before_clamp :
  score_before_clamp rainy_env (Time.hours 23) here =
  Ok (30, ["Adverse weather predicted: Rain.";
           "Potential for extreme heat: 40.0°C.";
           "Late night travel increases risk."]).
Proof.
  unfold score_before_clamp, weather_rules, get_weather_data.
  cbn -[is_hot]. rewrite is_hot_true by lra. reflexivity.
Qed.

(** With every rule firing the score before the clamp is exactly 30. *)
Lemma clamp_is_unreachable_witness :
  30 <= 30 <= 100 /\ Z.max 0 30 = 30 /\
  exists resp,
    calculate_safety_score rainy_env (Time.hours 23) here = Ok resp /\
    score resp = 30 /\ 0 <= score resp.
Proof.
  exact (clamp_is_unreachable rainy_env (Time.hours 23) here _
           rainy_hot_night_before_clamp).
Defined.

(** C3: rain, a temperature of at most 35 degrees and hour 23 give the
    score 45, the level Caution and the two reasons, weather first. *)
Theorem rain_at_23_scores_45 env now data w t :
  get_weather_data env (lat_to_check data) (lon_to_check data) = Some w ->
  main_weather_of w = Ok (Some "Rain") ->
  temp_of w = Some t ->
  (t <= 35)%R ->
  Time.hour now = 23 ->
  calculate_safety_score env now data =
  Ok {| score := 45;
        level := "Caution";
        reasons := ["Adverse weather predicted: Rain.";
                    "Late night travel increases risk."];
        district := default "Unknown Area" (Weather.name w) |}.
Proof.
  intros Hw Hmain Htemp Ht Hhour.
  unfold calculate_safety_score, score_before_clamp, weather_rules.
  rewrite Hw; cbn -[is_hot is_adverse]. rewrite Hmain, Htemp.
  cbn -[is_hot]. rewrite (is_hot_false _ Ht).
  unfold night_rule. rewrite Hhour. reflexivity.
Qed.

Lemma rain_at_23_scores_45_witness :
  calculate_safety_score mild_rain_env (Time.hours 23) here =
  Ok {| score := 45;
        level := "Caution";
        reasons := ["Adverse weather predicted: Rain.";
                    "Late night travel increases risk."];
        district := "Vijayawada" |}.
Proof.
  apply (rain_at_23_scores_45 mild_rain_env (Time.hours 23) here
           mild_rain_reply 24%R).
  - reflexivity.
  - reflexivity.
  - reflexivity.
  - lra.
  - reflexivity.
Defined.

Lemma scored_from_reply env now data w mw :
  get_weather_data env (lat_to_check data) (lon_to_check data) = Some w ->
  main_weather_of w = Ok mw ->
  calculate_safety_score env now data
  = Ok (ScorerSpec.response_for_reply env now w mw).
Proof.
  intros Hw Hmw.
  unfold calculate_safety_score, score_before_clamp, weather_rules,
    night_rule, ScorerSpec.response_for_reply.
  rewrite Hw, Hmw. cbn [bind district_of].
  destruct (is_adverse mw), (is_hot (temp_of w)),
    ((Time.hour now <? 6) || (22 <? Time.hour now)); reflexivity.
Qed.

(** C10: with the credential set, the reply that decides the response is
    the one the weather gateway gives at the point whose latitude is
    [destination_lat] when it is not null and the current latitude
    otherwise, and whose longitude is chosen in the same way on its own.
    A request with one destination coordinate only is answered, from the
    reply at the mixed point; when the gateway has no reply at the chosen
    point the district is N/A. *)
Theorem coordinates_chosen_componentwise env now data :
  key_present (OPENWEATHER_API_KEY env) = true ->
  let lat := LocationData.latitude data in
  let lon := LocationData.longitude data in
  let chosen_lat :=
    match LocationData.destination_lat data with
    | Some a => a
    | None => lat
    end in
  let chosen_lon :=
    match LocationData.destination_lon data with
    | Some b => b
    | None => lon
    end in
  (forall w mw,
      weather_api env chosen_lat chosen_lon = Some w ->
      main_weather_of w = Ok mw ->
      calculate_safety_score env now data
      = Ok (ScorerSpec.response_for_reply env now w mw)) /\
  (forall a w mw,
      LocationData.destination_lat data = Some a ->
      LocationData.destination_lon data = None ->
      weather_api env a lon = Some w ->
      main_weather_of w = Ok mw ->
      calculate_safety_score env now data
      = Ok (ScorerSpec.response_for_reply env now w mw)) /\
  (forall b w mw,
      LocationData.destination_lat data = None ->
      LocationData.destination_lon data = Some b ->
      weather_api env lat b = Some w ->
      main_weather_of w = Ok mw ->
      calculate_safety_score env now data
      = Ok (ScorerSpec.response_for_reply env now w mw)) /\
  (weather_api env chosen_lat chosen_lon = None ->
   exists resp,
     calculate_safety_score env now data = Ok resp /\
     district resp = "N/A").
Proof.
  intros Hkey lat lon chosen_lat chosen_lon.
  assert (Hget : get_weather_data env (lat_to_check data) (lon_to_check data)
                 = weather_api env chosen_lat chosen_lon).
  { unfold get_weather_data. now rewrite Hkey. }
  split; [| split; [| split]].
  - intros w mw Hw Hmw. apply scored_from_reply; [| exact Hmw].
    now rewrite Hget.
  - intros a w mw Ha Hb Hw Hmw. apply scored_from_reply; [| exact Hmw].
    rewrite Hget. unfold chosen_lat, chosen_lon. now rewrite Ha, Hb.
  - intros b w mw Ha Hb Hw Hmw. apply scored_from_reply; [| exact Hmw].
    rewrite Hget. unfold chosen_lat, chosen_lon. now rewrite Ha, Hb.
  - intros Hnone.
    unfold calculate_safety_score, score_before_clamp.
    rewrite Hget, Hnone. cbn [weather_rules bind district_of].
    eexists. split; reflexivity.
Qed.

(** Rain at the mixed point only, and a request that names the latitude
    of its destination: the response is the rainy one. *)
Lemma coordinates_chosen_componentwise_witness :
  calculate_safety_score (rain_only_at 17 80.6) (Time.hours 12)
                         half_destination
  = Ok (ScorerSpec.response_for_reply (rain_only_at 17 80.6) (Time.hours 12)
          mild_rain_reply (Some "Rain")) /\
  district (ScorerSpec.response_for_reply (rain_only_at 17 80.6)
              (Time.hours 12) mild_rain_reply (Some "Rain")) = "Vijayawada" /\
  score (ScorerSpec.response_for_reply (rain_only_at 17 80.6)
           (Time.hours 12) mild_rain_reply (Some "Rain")) = 75.
Proof.
  split; [| split].
  - apply (proj1 (proj2 (coordinates_chosen_componentwise
                            (rain_only_at 17 80.6) (Time.hours 12)
                            half_destination eq_refl)) 17%R).
    + reflexivity.
    + reflexivity.
    + cbn [rain_only_at weather_api half_destination LocationData.longitude].
      destruct (Req_dec_T 17 17) as [_ | H]; [| contradiction].
      destruct (Req_dec_T 80.6 80.6) as [_ | H]; [| contradiction].
      reflexivity.
    + reflexivity.
  - reflexivity.
  - unfold ScorerSpec.response_for_reply. cbn -[is_hot].
    rewrite is_hot_false by lra. reflexivity.
Defined.

(** With only [destination_lat] given, the weather is that of the point
    made of the destination latitude and the current longitude. *)
Lemma half_destination_is_scored_at_mixed_point :
  calculate_safety_score (rain_only_at 17 80.6) (Time.hours 12)
                         half_destination =
  Ok {| score := 75;
        level := "Safe";
        reasons := ["Adverse weather predicted: Rain."];
        district := "Vijayawada" |}.
Proof.
  unfold calculate_safety_score, score_before_clamp, get_weather_data.
  cbn [rain_only_at OPENWEATHER_API_KEY key_present str_truthy weather_api
       lat_to_check lon_to_check half_destination
       LocationData.destination_lat LocationData.destination_lon
       LocationData.longitude].
  destruct (Req_dec_T 17 17) as [_ | H]; [| contradiction].
  destruct (Req_dec_T 80.6 80.6) as [_ | H]; [| contradiction].
  unfold weather_rules. cbn -[is_hot].
  rewrite is_hot_false by lra. reflexivity.
Qed.

(** Without weather data and between 6 and 22 hours nothing is deducted. *)
Lemma unavailable_weather_by_day env now data :
  get_weather_data env (lat_to_check data) (lon_to_check data) = None ->
  6 <= Time.hour now <= 22 ->
  calculate_safety_score env now data =
  Ok {| score := 100; level := "Safe"; reasons := []; district := "N/A" |}.
Proof.
  intros Hw Hday.
  unfold calculate_safety_score, score_before_clamp, night_rule.
  rewrite Hw. cbn [weather_rules bind].
  assert (Hh : (Time.hour now <? 6) || (22 <? Time.hour now) = false).
  { apply orb_false_iff. split; apply Z.ltb_ge; lia. }
  rewrite Hh. reflexivity.
Qed.

End ScorerFacts.

(** *** Facts about the anomaly detector *)

Module TrackerFacts.

Import Tracker TrackerSpec Scenarios.

Lemma alert_inj (a b : string) : alert a = alert b -> a = b.
Proof. unfold alert; simpl. intros H. now simplify_eq. Qed.

Lemma inactivity_not_deviation (i j : string) :
  inactivity_anomaly i <> deviation_anomaly j.
Proof. unfold inactivity_anomaly, deviation_anomaly; simpl. discriminate. Qed.

Lemma check_inactivity_run now data last found :
  check_inactivity now data last found =
  let b := inactive now data last in
  let anomaly := inactivity_anomaly (TrackingData.tourist_id data) in
  (map alert (when b anomaly), Ok (found ++ when b anomaly)).
Proof.
  unfold check_inactivity, inactive.
  rewrite GeoFacts.haversine_floats. cbn -[Time.minutes Geo.km].
  destruct ((Time.minutes 20 <? _) && _); cbn; [reflexivity |].
  now rewrite app_nil_r.
Qed.

Lemma check_deviation_unguarded data last found :
  deviation_guard data last = false ->
  check_deviation data last found = ([], Ok found).
Proof. intros H. unfold check_deviation. now rewrite H. Qed.

Lemma check_deviation_no_lon data last found :
  deviation_guard data last = true ->
  TrackingData.destination_lon data = None ->
  check_deviation data last found = ([], Raise TypeError).
Proof.
  intros Hg Hlon. unfold check_deviation. rewrite Hg, Hlon.
  unfold deviation_guard in Hg. apply andb_true_iff in Hg as [Hlat _].
  destruct (TrackingData.destination_lat data) as [a |]; [| discriminate].
  reflexivity.
Qed.

Lemma check_deviation_run data last found a b :
  deviation_guard data last = true ->
  TrackingData.destination_lat data = Some a ->
  TrackingData.destination_lon data = Some b ->
  check_deviation data last found =
  let d := deviates data last a b in
  let anomaly := deviation_anomaly (TrackingData.tourist_id data) in
  (map alert (when d anomaly), Ok (found ++ when d anomaly)).
Proof.
  intros Hg Hlat Hlon. unfold check_deviation, deviates.
  rewrite Hg, Hlat, Hlon, !GeoFacts.haversine_floats. cbn -[Geo.km].
  destruct (float_gt _ _); cbn; [reflexivity |].
  now rewrite app_nil_r.
Qed.

(** The first report of a tourist finds nothing and creates the record. *)
Lemma track_first_report st now data :
  st !! TrackingData.tourist_id data = None ->
  track_location_and_detect_anomalies st now data =
  ([], Ok (<[TrackingData.tourist_id data := new_record now data]> st,
           {| status := "location updated"; anomalies := [] |})).
Proof.
  intros H. unfold track_location_and_detect_anomalies. now rewrite H.
Qed.

(** The handler raises on exactly one kind of report: a non-zero
    [destination_lat] without a [destination_lon], for a tourist whose
    stored record has a destination. *)
Lemma track_raises st now data last :
  st !! TrackingData.tourist_id data = Some last ->
  deviation_guard data last = true ->
  TrackingData.destination_lon data = None ->
  track_location_and_detect_anomalies st now data =
  (map alert (when (inactive now data last)
                   (inactivity_anomaly (TrackingData.tourist_id data))),
   Raise TypeError).
Proof.
  intros Hst Hg Hlon. unfold track_location_and_detect_anomalies.
  rewrite Hst, check_inactivity_run. cbv zeta. cbn [io_bind app].
  rewrite (check_deviation_no_lon _ _ _ Hg Hlon).
  cbn. now rewrite app_nil_r.
Qed.

Lemma track_unguarded st now data last :
  st !! TrackingData.tourist_id data = Some last ->
  deviation_guard data last = false ->
  let tourist_id := TrackingData.tourist_id data in
  let found := when (inactive now data last)
                    (inactivity_anomaly tourist_id) in
  track_location_and_detect_anomalies st now data =
  (map alert found,
   Ok (<[tourist_id := new_record now data]> st,
       {| status := "location updated"; anomalies := found |})).
Proof.
  intros Hst Hg. unfold track_location_and_detect_anomalies.
  rewrite Hst, check_inactivity_run. cbv zeta. cbn [io_bind app].
  rewrite (check_deviation_unguarded _ _ _ Hg).
  cbn. now rewrite !app_nil_r.
Qed.

Lemma track_guarded st now data last a b :
  st !! TrackingData.tourist_id data = Some last ->
  deviation_guard data last = true ->
  TrackingData.destination_lat data = Some a ->
  TrackingData.destination_lon data = Some b ->
  let tourist_id := TrackingData.tourist_id data in
  let found := when (inactive now data last)
                    (inactivity_anomaly tourist_id)
               ++ when (deviates data last a b)
                       (deviation_anomaly tourist_id) in
  track_location_and_detect_anomalies st now data =
  (map alert found,
   Ok (<[tourist_id := new_record now data]> st,
       {| status := "location updated"; anomalies := found |})).
Proof.
  intros Hst Hg Hlat Hlon. unfold track_location_and_detect_anomalies.
  rewrite Hst, check_inactivity_run. cbv zeta. cbn [io_bind app].
  rewrite (check_deviation_run _ _ _ _ _ Hg Hlat Hlon).
  cbn. now rewrite !app_nil_r, map_app.
Qed.

Lemma inactive_iff now data last :
  inactive now data last = true <->
  (Time.minutes 20 < now - timestamp last /\
   exists d, Geo.distance (TrackingData.latitude data,
                           TrackingData.longitude data)
                          (lat last, lon last) = Ok d /\ (d < 0.05)%R).
Proof.
  unfold inactive, Geo.distance, float_lt.
  rewrite GeoFacts.haversine_floats, andb_true_iff, Z.ltb_lt. cbn [fst snd].
  split.
  - intros [Ht Hd]. split; [exact Ht |].
    eexists; split; [reflexivity |].
    destruct (Rlt_dec _ _); [assumption | discriminate].
  - intros [Ht (d & [= <-] & Hd)]. split; [exact Ht |].
    destruct (Rlt_dec _ _); [reflexivity | contradiction].
Qed.

Lemma in_when (b : bool) (x y : string) : In x (when b y) <-> b = true /\ x = y.
Proof.
  destruct b; simpl; split; try tauto.
  - intros [-> | []]. auto.
  - intros [_ ->]. auto.
  - intros [? _]. discriminate.
Qed.

Lemma in_inactivity_found (b d : bool) (tid : string) :
  In (inactivity_anomaly tid)
     (when b (inactivity_anomaly tid) ++ when d (deviation_anomaly tid))
  <-> b = true.
Proof.
  rewrite in_app_iff, !in_when. split.
  - intros [[H _] | [_ H]]; [exact H |].
    now apply inactivity_not_deviation in H.
  - intros ->. left. auto.
Qed.

Lemma in_deviation_found (b d : bool) (tid : string) :
  In (deviation_anomaly tid)
     (when b (inactivity_anomaly tid) ++ when d (deviation_anomaly tid))
  <-> d = true.
Proof.
  rewrite in_app_iff, !in_when. split.
  - intros [[_ H] | [H _]]; [| exact H].
    symmetry in H. now apply inactivity_not_deviation in H.
  - intros ->. right. auto.
Qed.

Lemma in_map_alert (x : string) (l : list string) :
  In (alert x) (map alert l) <-> In x l.
Proof.
  rewrite in_map_iff. split.
  - intros (y & Hy & Hin). apply alert_inj in Hy. now subst.
  - intros H. exists x. auto.
Qed.

(** A report about a known tourist leaves one of three traces. *)
Lemma track_cases st now data last :
  st !! TrackingData.tourist_id data = Some last ->
  let tourist_id := TrackingData.tourist_id data in
  let inact := when (inactive now data last)
                    (inactivity_anomaly tourist_id) in
  exists d : bool,
    let found := inact ++ when d (deviation_anomaly tourist_id) in
    stdout (track_location_and_detect_anomalies st now data)
    = map alert found /\
    (outcome (track_location_and_detect_anomalies st now data)
     = Raise TypeError \/
     outcome (track_location_and_detect_anomalies st now data)
     = Ok (<[tourist_id := new_record now data]> st,
           {| status := "location updated"; anomalies := found |})).
Proof.
  intros Hst tourist_id inact.
  destruct (deviation_guard data last) eqn:Hg.
  - destruct (TrackingData.destination_lon data) as [b |] eqn:Hlon.
    + assert (exists a, TrackingData.destination_lat data = Some a)
        as [a Hlat].
      { unfold deviation_guard in Hg. apply andb_true_iff in Hg as [Hl _].
        destruct (TrackingData.destination_lat data); [eauto | discriminate]. }
      exists (deviates data last a b).
      rewrite (track_guarded _ _ _ _ _ _ Hst Hg Hlat Hlon). cbn. auto.
    + exists false. rewrite (track_raises _ _ _ _ Hst Hg Hlon). cbn.
      rewrite app_nil_r. auto.
  - exists false. rewrite (track_unguarded _ _ _ _ Hst Hg). cbn.
    rewrite app_nil_r. auto.
Qed.

(** C4: for a tourist with a stored record, the inactivity alert is
    printed exactly when more than 20 minutes have passed since the
    stored timestamp and the reported point is less than 0.05 km from
    the stored one; and whenever the handler answers, the anomaly is in
    the answer under exactly the same condition. *)
Theorem inactivity_emitted_iff st now data last :
  st !! TrackingData.tourist_id data = Some last ->
  let tourist_id := TrackingData.tourist_id data in
  let run := track_location_and_detect_anomalies st now data in
  let condition :=
    Time.minutes 20 < now - timestamp last /\
    exists d, Geo.distance (TrackingData.latitude data,
                            TrackingData.longitude data)
                           (lat last, lon last) = Ok d /\ (d < 0.05)%R in
  (In (alert (inactivity_anomaly tourist_id)) (stdout run) <-> condition) /\
  (forall st' resp,
      outcome run = Ok (st', resp) ->
      (In (inactivity_anomaly tourist_id) (anomalies resp) <-> condition)).
Proof.
  intros Hst tourist_id run condition.
  destruct (track_cases st now data last Hst) as (d & Hout & Hres).
  fold run tourist_id in Hout, Hres.
  assert (Hcond : inactive now data last = true <-> condition)
    by apply inactive_iff.
  split.
  - rewrite Hout, in_map_alert, in_inactivity_found. exact Hcond.
  - intros st' resp Hok.
    destruct Hres as [Hres | Hres]; rewrite Hres in Hok; [discriminate |].
    injection Hok as _ <-. cbn [anomalies].
    rewrite in_inactivity_found. exact Hcond.
Qed.

Lemma PI_gt_3 : (3 < PI)%R.
Proof. pose proof PI2_3_2. lra. Qed.

Lemma resting_is_inactive :
  inactive (Time.minutes 25) resting_now resting_before = true.
Proof.
  unfold inactive. apply andb_true_iff. split; [reflexivity |].
  cbn [TrackingData.latitude TrackingData.longitude resting_now
       resting_before lat lon].
  rewrite GeoFacts.km_sym, GeoFacts.km_equator by lra.
  unfold float_lt, Geo.R_earth.
  destruct (Rlt_dec _ _) as [| Hn]; [reflexivity |].
  exfalso. apply Hn. pose proof PI_4. pose proof PI_RGT_0. nra.
Qed.

(** Twenty-five minutes later and about ten metres away: the anomaly is
    in the answer. *)
Lemma inactivity_emitted_iff_witness :
  exists st' resp,
    outcome (track_location_and_detect_anomalies
               {[ "t1" := resting_before ]} (Time.minutes 25) resting_now)
    = Ok (st', resp) /\
    In "Prolonged inactivity detected for tourist t1." (anomalies resp).
Proof.
  assert (Hst : ({[ "t1" := resting_before ]} : gmap string state_record)
                !! TrackingData.tourist_id resting_now
                = Some resting_before)
    by apply lookup_singleton_eq.
  pose proof (track_unguarded _ (Time.minutes 25) _ _ Hst eq_refl) as Hrun.
  cbv zeta in Hrun.
  destruct (inactivity_emitted_iff _ (Time.minutes 25) _ _ Hst)
    as [_ Hresp].
  eexists _, _. split.
  - rewrite Hrun. reflexivity.
  - apply (Hresp _ _ (f_equal snd Hrun)).
    apply inactive_iff, resting_is_inactive.
Defined.

(** What the handler does to the store when it answers: one insertion. *)
Lemma track_store_effect st now data st' resp :
  outcome (track_location_and_detect_anomalies st now data)
  = Ok (st', resp) ->
  st' = <[TrackingData.tourist_id data := new_record now data]> st /\
  status resp = "location updated".
Proof.
  destruct (st !! TrackingData.tourist_id data) as [last |] eqn:Hst.
  - destruct (track_cases st now data last Hst) as (d & _ & [H | H]);
      rewrite H; [discriminate |].
    intros [= <- <-]. auto.
  - rewrite (track_first_report _ _ _ Hst). cbn. intros [= <- <-]. auto.
Qed.

(** The record written for a report: the reported position, the time of
    the report, and a destination exactly when [destination_lat] is a
    non-zero float. Every other key keeps its record. *)
Lemma track_frame st now data st' resp :
  outcome (track_location_and_detect_anomalies st now data)
  = Ok (st', resp) ->
  st' !! TrackingData.tourist_id data = Some (new_record now data) /\
  (forall other, other <> TrackingData.tourist_id data ->
                 st' !! other = st !! other) /\
  (is_Some (destination (new_record now data)) <->
   exists a, TrackingData.destination_lat data = Some a /\ a <> 0%R).
Proof.
  intros H. apply track_store_effect in H as [-> _].
  split; [apply lookup_insert_eq |].
  split; [intros other Hne; now apply lookup_insert_ne |].
  unfold new_record; cbn [destination].
  destruct (TrackingData.destination_lat data) as [a |]; cbn.
  - unfold float_truthy. destruct (Req_dec_T a 0) as [-> | Hne].
    + split; [intros [? [=]] | intros (? & [= <-] & ?); lra].
    + split; [eauto | intros _; eauto].
  - split; [intros [? [=]] | intros (? & [=] & _)].
Qed.

(** With floats taken as reals, the handler answers unless the report
    has a non-zero [destination_lat], no [destination_lon], and follows a
    record that holds a destination. *)
Lemma track_answers st now data :
  (forall last, st !! TrackingData.tourist_id data = Some last ->
                deviation_guard data last = true ->
                is_Some (TrackingData.destination_lon data)) ->
  exists st' resp,
    outcome (track_location_and_detect_anomalies st now data)
    = Ok (st', resp).
Proof.
  intros Hsafe.
  destruct (st !! TrackingData.tourist_id data) as [last |] eqn:Hst.
  - destruct (deviation_guard data last) eqn:Hg.
    + destruct (Hsafe last eq_refl Hg) as [b Hlon].
      assert (exists a, TrackingData.destination_lat data = Some a)
        as [a Hlat].
      { unfold deviation_guard in Hg. apply andb_true_iff in Hg as [Hl _].
        destruct (TrackingData.destination_lat data); [eauto | discriminate]. }
      rewrite (track_guarded _ _ _ _ _ _ Hst Hg Hlat Hlon). cbn. eauto.
    + rewrite (track_unguarded _ _ _ _ Hst Hg). cbn. eauto.
  - rewrite (track_first_report _ _ _ Hst). cbn. eauto.
Qed.

(** When the report has a non-zero destination latitude and a
    destination longitude, and the stored record has a destination, the
    deviation anomaly is answered exactly when the reported position is
    more than 0.2 km farther from the reported destination than the
    stored position is. *)
Lemma deviation_emitted_iff st now data last a b :
  st !! TrackingData.tourist_id data = Some last ->
  TrackingData.destination_lat data = Some a -> a <> 0%R ->
  TrackingData.destination_lon data = Some b ->
  is_Some (destination last) ->
  exists st' resp,
    outcome (track_location_and_detect_anomalies st now data)
    = Ok (st', resp) /\
    (In (deviation_anomaly (TrackingData.tourist_id data)) (anomalies resp)
     <-> exists d_new d_old,
         Geo.haversine (Some (TrackingData.latitude data))
                       (Some (TrackingData.longitude data))
                       (Some a) (Some b) = Ok d_new /\
         Geo.haversine (Some (lat last)) (Some (lon last))
                       (Some a) (Some b) = Ok d_old /\
         (d_new > d_old + 0.2)%R).
Proof.
  intros Hst Hlat Ha Hlon Hdest.
  assert (Hg : deviation_guard data last = true).
  { unfold deviation_guard. rewrite Hlat; cbn.
    rewrite ScorerFacts.float_truthy_true by assumption.
    now rewrite bool_decide_eq_true_2. }
  rewrite (track_guarded _ _ _ _ _ _ Hst Hg Hlat Hlon). cbn zeta.
  eexists _, _. split; [reflexivity |]. cbn [anomalies].
  rewrite in_deviation_found, !GeoFacts.haversine_floats.
  unfold deviates, float_gt, float_lt. split.
  - intros H. eexists _, _. split; [reflexivity |]. split; [reflexivity |].
    destruct (Rlt_dec _ _); [lra | discriminate].
  - intros (d1 & d0 & [= <-] & [= <-] & Hd).
    destruct (Rlt_dec _ _); [reflexivity | lra].
Qed.

Lemma truthy_zero : opt_float_truthy (Some 0%R) = false.
Proof. exact ScorerFacts.float_truthy_zero. Qed.

Lemma truthy_half : opt_float_truthy (Some 0.5%R) = true.
Proof. apply ScorerFacts.float_truthy_true. lra. Qed.

(** C1, evaluated where the code departs from it. The stored record has
    a destination; the new report names the destination (0, 0) and puts
    the tourist one degree of longitude, more than 100 km, farther from
    it than before; the handler answers with no anomaly, because a
    destination latitude of 0.0 does not pass the guard of line 133. *)
Theorem deviation_missed_for_equator_destination :
  let st0 : gmap string state_record :=
    <["t1" := new_record 0 heading_north]> ∅ in
  outcome (track_location_and_detect_anomalies ∅ 0 heading_north)
  = Ok (st0, {| status := "location updated"; anomalies := [] |}) /\
  is_Some (destination (new_record 0 heading_north)) /\
  track_location_and_detect_anomalies st0 (Time.minutes 1) to_null_island
  = ([], Ok (<["t1" := new_record (Time.minutes 1) to_null_island]> st0,
             {| status := "location updated"; anomalies := [] |})) /\
  exists d_new d_old,
    Geo.haversine (Some 0%R) (Some 1%R) (Some 0%R) (Some 0%R) = Ok d_new /\
    Geo.haversine (Some 0%R) (Some 0%R) (Some 0%R) (Some 0%R) = Ok d_old /\
    (d_new > d_old + 0.2)%R.
Proof.
  intros st0. split; [| split; [| split]].
  - now rewrite track_first_report by apply lookup_empty.
  - unfold new_record; cbn [destination heading_north
                            TrackingData.destination_lat].
    rewrite truthy_half. eauto.
  - assert (Hst : st0 !! TrackingData.tourist_id to_null_island
                  = Some (new_record 0 heading_north))
      by apply lookup_insert_eq.
    assert (Hg : deviation_guard to_null_island
                   (new_record 0 heading_north) = false).
    { unfold deviation_guard.
      cbn [to_null_island TrackingData.destination_lat].
      now rewrite truthy_zero. }
    rewrite (track_unguarded _ _ _ _ Hst Hg). reflexivity.
  - rewrite !GeoFacts.haversine_floats. eexists _, _.
    split; [reflexivity |]. split; [reflexivity |].
    rewrite GeoFacts.km_same, GeoFacts.km_sym, GeoFacts.km_equator by lra.
    unfold Geo.R_earth. pose proof PI_gt_3. nra.
Qed.

(** C2, evaluated where the code departs from it. A report that gives
    only the latitude of its destination is accepted once; the same
    report sent again meets a stored destination, calls the distance
    utility with [None] for a longitude and raises [TypeError]. *)
Theorem latitude_only_report_raises :
  exists st1 resp1,
    outcome (track_location_and_detect_anomalies ∅ 0 latitude_only)
    = Ok (st1, resp1) /\
    outcome (track_location_and_detect_anomalies
               st1 (Time.minutes 1) latitude_only)
    = Raise TypeError.
Proof.
  eexists _, _. split.
  - now rewrite track_first_report by apply lookup_empty.
  - assert (Hg : deviation_guard latitude_only
                   (new_record 0 latitude_only) = true).
    { unfold deviation_guard, new_record.
      cbn [latitude_only TrackingData.destination_lat destination].
      now rewrite truthy_half. }
    erewrite track_raises;
      [reflexivity | apply lookup_insert_eq | exact Hg | reflexivity].
Qed.

(** C5, evaluated where the code departs from it. The report names the
    destination (0, 0); the record written for it has no destination. *)
Theorem equator_destination_not_stored :
  TrackingData.destination_lat to_null_island = Some 0%R /\
  TrackingData.destination_lon to_null_island = Some 0%R /\
  exists st' resp r,
    outcome (track_location_and_detect_anomalies ∅ 0 to_null_island)
    = Ok (st', resp) /\
    st' !! "t1" = Some r /\
    destination r = None.
Proof.
  split; [reflexivity |]. split; [reflexivity |].
  eexists _, _, _. split; [| split].
  - now rewrite track_first_report by apply lookup_empty.
  - apply lookup_insert_eq.
  - unfold new_record;
      cbn [destination to_null_island TrackingData.destination_lat].
    now rewrite truthy_zero.
Qed.

(** **** The staleness sweep *)

Lemma sweep_loop_spec now keys : forall st : gmap string state_record,
  NoDup keys ->
  (forall k, k ∈ keys -> is_Some (st !! k)) ->
  exists out st',
    sweep_loop now keys st = (out, Ok st') /\
    forall k, st' !! k = swept now keys st k.
Proof.
  induction keys as [| k keys IH]; intros st Hnd Hin.
  - exists [], st. split; [reflexivity |].
    intros k. unfold swept. destruct (st !! k); [| reflexivity].
    rewrite bool_decide_eq_false_2 by apply not_elem_of_nil. reflexivity.
  - apply NoDup_cons in Hnd as [Hk Hnd].
    destruct (Hin k) as [r Hr]; [left |].
    cbn [sweep_loop]. unfold sweep_step. rewrite Hr.
    fold (stale now r).
    destruct (stale now r) eqn:Hstale.
    + destruct (IH (delete k st) Hnd) as (out & st' & Hrun & Hst').
      { intros j Hj. rewrite lookup_delete_ne by (intros ->; contradiction).
        apply Hin. now right. }
      cbn. rewrite Hrun. eexists _, st'. split; [reflexivity |].
      intros j. rewrite Hst'. unfold swept.
      destruct (decide (j = k)) as [-> | Hne].
      * rewrite lookup_delete_eq, Hr, Hstale.
        rewrite bool_decide_eq_true_2 by left. reflexivity.
      * rewrite lookup_delete_ne by congruence.
        destruct (st !! j); [| reflexivity].
        rewrite (bool_decide_ext (j ∈ keys) (j ∈ k :: keys));
          [reflexivity |].
        rewrite elem_of_cons. tauto.
    + destruct (IH st Hnd) as (out & st' & Hrun & Hst').
      { intros j Hj. apply Hin. now right. }
      cbn. rewrite Hrun. eexists _, st'. split; [reflexivity |].
      intros j. rewrite Hst'. unfold swept.
      destruct (decide (j = k)) as [-> | Hne].
      * rewrite Hr, Hstale, !andb_false_r. reflexivity.
      * destruct (st !! j); [| reflexivity].
        rewrite (bool_decide_ext (j ∈ keys) (j ∈ k :: keys));
          [reflexivity |].
        rewrite elem_of_cons. tauto.
Qed.

(** The sweep never raises, and what it leaves is [swept] over all keys. *)
Lemma sweep_spec now (st : gmap string state_record) :
  exists out st',
    check_for_sudden_dropoffs now st = (out, Ok st') /\
    forall k, st' !! k =
              match st !! k with
              | Some r => if stale now r then None else Some r
              | None => None
              end.
Proof.
  destruct (sweep_loop_spec now (map_to_list st).*1 st)
    as (out & st' & Hrun & Hst').
  { apply NoDup_fst_map_to_list. }
  { intros k Hk. apply list_elem_of_fmap in Hk as ([k' r] & -> & Hk).
    apply elem_of_map_to_list in Hk. eauto. }
  exists out, st'. split; [exact Hrun |].
  intros k. rewrite Hst'. unfold swept.
  destruct (st !! k) as [r |] eqn:Hr; [| reflexivity].
  rewrite bool_decide_eq_true_2; [reflexivity |].
  apply list_elem_of_fmap. exists (k, r).
  split; [reflexivity | now apply elem_of_map_to_list].
Qed.

(** A record written by a report outlives the sweep scheduled by that
    report, as long as the sweep runs within 15 minutes. *)
Lemma track_then_sweep_keeps_report st now later data st' resp :
  later - now <= Time.minutes 15 ->
  outcome (track_then_sweep st now later data) = Ok (st', resp) ->
  st' !! TrackingData.tourist_id data = Some (new_record now data).
Proof.
  intros Hsoon. unfold track_then_sweep.
  destruct (track_location_and_detect_anomalies st now data)
    as [out [[st1 resp1] | e]] eqn:Hrun; cbn [io_bind]; [| discriminate].
  pose proof (track_frame st now data st1 resp1) as Hframe.
  rewrite Hrun in Hframe. destruct (Hframe eq_refl) as [Hnew _].
  cbn [fst snd].
  destruct (sweep_spec later st1) as (out' & st2 & -> & Hst2).
  cbn. intros [= <- _]. rewrite Hst2, Hnew.
  unfold stale, new_record; cbn [timestamp].
  now rewrite (proj2 (Z.ltb_ge _ _) Hsoon).
Qed.

(** C6: the sweep ends without an exception; it removes the records
    whose timestamp is more than 15 minutes before the time of the sweep
    and keeps every other record as it was, so a record 16 minutes old
    goes and one 10 minutes old stays. *)
Theorem sweep_removes_exactly_the_stale now
    (st : gmap string state_record) :
  exists st',
    outcome (check_for_sudden_dropoffs now st) = Ok st' /\
    (forall k r, st !! k = Some r ->
                 Time.minutes 15 < now - timestamp r -> st' !! k = None) /\
    (forall k r, st !! k = Some r ->
                 now - timestamp r <= Time.minutes 15 ->
                 st' !! k = Some r) /\
    (forall k, st !! k = None -> st' !! k = None) /\
    (forall k r, st !! k = Some r ->
                 now - timestamp r = Time.minutes 16 -> st' !! k = None) /\
    (forall k r, st !! k = Some r ->
                 now - timestamp r = Time.minutes 10 -> st' !! k = Some r).
Proof.
  destruct (sweep_spec now st) as (out & st' & Hrun & Hst').
  assert (Hgone : forall k r, st !! k = Some r ->
                    Time.minutes 15 < now - timestamp r -> st' !! k = None).
  { intros k r Hr Hold. rewrite Hst', Hr. unfold stale.
    now rewrite (proj2 (Z.ltb_lt _ _) Hold). }
  assert (Hkept : forall k r, st !! k = Some r ->
                    now - timestamp r <= Time.minutes 15 ->
                    st' !! k = Some r).
  { intros k r Hr Hyoung. rewrite Hst', Hr. unfold stale.
    now rewrite (proj2 (Z.ltb_ge _ _) Hyoung). }
  exists st'. rewrite Hrun.
  split; [reflexivity |]. split; [exact Hgone |]. split; [exact Hkept |].
  split; [| split].
  - intros k Hk. now rewrite Hst', Hk.
  - intros k r Hr Hage. apply (Hgone k r Hr). rewrite Hage.
    unfold Time.minutes, Time.second. lia.
  - intros k r Hr Hage. apply (Hkept k r Hr). rewrite Hage.
    unfold Time.minutes, Time.second. lia.
Qed.

End TrackerFacts.

(** *** Facts about the points-of-interest proxy *)

Module PoiFacts.

Import Poi PoiSpec Scenarios.

(** **** The two loops *)

Lemma visit_keywords_flat env data (kws : list string) (st : acc) :
  fold_left (visit_keyword env data) kws st =
  fold_left visit_result
    (flat_map (fun keyword =>
                 results_of (tomtom_api env keyword
                               (LocationData.latitude data)
                               (LocationData.longitude data))) kws) st.
Proof.
  revert st. induction kws as [| kw kws IH]; intros st; [reflexivity |].
  cbn [fold_left flat_map]. rewrite fold_left_app, IH. reflexivity.
Qed.

Lemma first_named_app_l n pre rs r :
  first_named n pre = Some r -> first_named n (pre ++ rs) = Some r.
Proof.
  unfold first_named. induction pre as [| x pre IH]; [discriminate |].
  cbn. destruct (bool_decide _); auto.
Qed.

Lemma first_named_app_r n pre rs :
  first_named n pre = None -> first_named n (pre ++ rs) = first_named n rs.
Proof.
  unfold first_named. induction pre as [| x pre IH]; [reflexivity |].
  cbn. destruct (bool_decide _); [discriminate | auto].
Qed.

Lemma first_named_none n pre :
  (forall r, r ∈ pre -> poi_name_of r <> Some n) -> first_named n pre = None.
Proof.
  unfold first_named. induction pre as [| x pre IH]; intros H; [reflexivity |].
  cbn. rewrite bool_decide_eq_false_2 by (apply H; left).
  apply IH. intros r Hr. apply H. now right.
Qed.

Lemma first_named_elem n rs r :
  first_named n rs = Some r -> r ∈ rs /\ poi_name_of r = Some n.
Proof.
  unfold first_named. induction rs as [| x rs IH]; [discriminate |].
  cbn. destruct (bool_decide (poi_name_of x = Some n)) eqn:Hx.
  - intros [= <-]. apply bool_decide_eq_true in Hx. split; [left | exact Hx].
  - intros H. destruct (IH H). split; [now right | assumption].
Qed.

Lemma visited_start : visited [] ([], ∅).
Proof.
  split; cbn.
  - intros n. rewrite elem_of_empty, elem_of_nil. tauto.
  - constructor.
  - intros a Ha. now apply elem_of_nil in Ha.
  - intros r n Hr. now apply elem_of_nil in Hr.
Qed.

Lemma visited_skip pre st r :
  visited pre st ->
  (forall n, poi_name_of r = Some n -> str_truthy n = true -> n ∈ st.2) ->
  visited (pre ++ [r]) st.
Proof.
  intros [Hseen Hnd Hfirst Hcover] Hr. split; [assumption | assumption | |].
  - intros a Ha. destruct (Hfirst a Ha) as (r' & Hf & ->).
    exists r'. split; [now apply first_named_app_l | reflexivity].
  - intros r' n Hin Hn Ht.
    apply elem_of_app in Hin as [Hin | Hin]; [eauto |].
    apply list_elem_of_singleton in Hin as ->. auto.
Qed.

Lemma visited_step pre st r :
  visited pre st -> visited (pre ++ [r]) (visit_result st r).
Proof.
  intros Hv. destruct st as [attractions seen_names].
  unfold visit_result.
  destruct (poi_name_of r) as [n |] eqn:Hname;
    [| apply visited_skip; [assumption | intros; congruence]].
  destruct (str_truthy n) eqn:Htruthy; cbn [andb];
    [| apply visited_skip; [assumption | intros; congruence]].
  destruct (decide (n ∈ seen_names)) as [Hin | Hfresh].
  { rewrite bool_decide_eq_false_2 by tauto.
    apply visited_skip; [assumption |].
    intros m Hm _. cbn. congruence. }
  rewrite bool_decide_eq_true_2 by assumption.
  destruct Hv as [Hseen Hnd Hfirst Hcover]. cbn [fst snd] in *.
  assert (Hnew : n ∉ name <$> attractions) by now rewrite <- Hseen.
  split; cbn [fst snd].
  - intros m. rewrite fmap_app, elem_of_app, elem_of_union,
      elem_of_singleton, Hseen. cbn.
    rewrite list_elem_of_singleton. tauto.
  - rewrite fmap_app. apply NoDup_app. split; [assumption |].
    split; [| apply NoDup_singleton].
    intros m Hm Hm'. apply list_elem_of_singleton in Hm'. now subst.
  - intros a Ha. apply elem_of_app in Ha as [Ha | Ha].
    + destruct (Hfirst a Ha) as (r' & Hf & ->).
      exists r'. split; [now apply first_named_app_l | reflexivity].
    + apply list_elem_of_singleton in Ha as ->. cbn [name attraction_of].
      exists r. split; [| reflexivity].
      rewrite first_named_app_r.
      * unfold first_named. cbn. now rewrite bool_decide_eq_true_2.
      * apply first_named_none. intros r' Hr' Hn'.
        apply Hfresh. eauto.
  - intros r' m Hin Hm Ht. apply elem_of_union.
    apply elem_of_app in Hin as [Hin | Hin]; [eauto |].
    apply list_elem_of_singleton in Hin as ->.
    left. apply elem_of_singleton. congruence.
Qed.

Lemma visited_fold rs : forall pre st,
  visited pre st -> visited (pre ++ rs) (fold_left visit_result rs st).
Proof.
  induction rs as [| r rs IH]; intros pre st Hv; cbn [fold_left].
  - now rewrite app_nil_r.
  - replace (pre ++ r :: rs) with ((pre ++ [r]) ++ rs)
      by now rewrite <- app_assoc.
    apply IH, visited_step, Hv.
Qed.

Lemma visited_all env data :
  visited (all_results env data)
          (fold_left (visit_keyword env data) search_keywords ([], ∅)).
Proof.
  rewrite visit_keywords_flat.
  apply (visited_fold _ [] _ visited_start).
Qed.

(** **** The sort *)

Lemma key_lt_ok (a b : option R) (smaller : bool) :
  key_lt a b = Ok smaller ->
  exists x y, a = Some x /\ b = Some y /\ smaller = float_lt x y.
Proof.
  destruct a as [x |], b as [y |]; cbn; try discriminate.
  intros [= <-]. eauto.
Qed.

Lemma float_lt_spec (x y : R) :
  if float_lt x y then (x < y)%R else (y <= x)%R.
Proof. unfold float_lt. destruct (Rlt_dec x y); lra. Qed.

Lemma insert_by_distance_perm x : forall l l',
  insert_by_distance x l = Ok l' -> l' ≡ₚ x :: l.
Proof.
  induction l as [| y rest IH]; intros l'; cbn.
  - now intros [= <-].
  - destruct (key_lt (distance x) (distance y)) as [[|] | e]; cbn;
      try discriminate.
    + now intros [= <-].
    + destruct (insert_by_distance x rest) as [r |]; cbn; [| discriminate].
      intros [= <-]. rewrite (IH r eq_refl). apply Permutation_swap.
Qed.

Lemma dist_le_trans_lt (x y z : attraction) (dx dy : R) :
  distance x = Some dx -> distance y = Some dy -> (dx <= dy)%R ->
  dist_le y z -> dist_le x z.
Proof.
  unfold dist_le. intros -> ->. destruct (distance z); [lra | tauto].
Qed.

Lemma insert_by_distance_sorted x : forall l l',
  StronglySorted dist_le l ->
  insert_by_distance x l = Ok l' ->
  StronglySorted dist_le l'.
Proof.
  induction l as [| y rest IH]; intros l' Hs; cbn.
  - intros [= <-]. repeat constructor.
  - destruct (key_lt (distance x) (distance y)) as [smaller | e] eqn:Hk;
      cbn; [| discriminate].
    apply key_lt_ok in Hk as (dx & dy & Hx & Hy & ->).
    pose proof (float_lt_spec dx dy) as Hcmp.
    apply StronglySorted_inv in Hs as [Hrest Hy_le].
    destruct (float_lt dx dy).
    + intros [= <-]. constructor; [now constructor |].
      constructor.
      * unfold dist_le. rewrite Hx, Hy. lra.
      * eapply Forall_impl; [exact Hy_le |].
        intros z. apply (dist_le_trans_lt x y z dx dy Hx Hy). lra.
    + destruct (insert_by_distance x rest) as [r |] eqn:Hr; cbn;
        [| discriminate].
      intros [= <-]. constructor; [now apply IH |].
      apply insert_by_distance_perm in Hr. rewrite Hr.
      constructor; [| exact Hy_le].
      unfold dist_le. now rewrite Hx, Hy.
Qed.

Lemma insert_by_distance_total x : forall l,
  is_Some (distance x) ->
  Forall (fun a => is_Some (distance a)) l ->
  exists l', insert_by_distance x l = Ok l'.
Proof.
  intros l [dx Hx]. induction l as [| y rest IH]; intros Hall; cbn.
  - eauto.
  - apply Forall_cons in Hall as [[dy Hy] Hrest].
    rewrite Hx, Hy; cbn. destruct (float_lt dx dy); [eauto |].
    destruct (IH Hrest) as [r ->]. cbn. eauto.
Qed.

Lemma sort_raise_sticks e (l : list attraction) :
  fold_left sort_step l (Raise e) = Raise e.
Proof. induction l; cbn; auto. Qed.

Lemma sort_fold_spec : forall l sorted l',
  StronglySorted dist_le sorted ->
  fold_left sort_step l (Ok sorted) = Ok l' ->
  l' ≡ₚ sorted ++ l /\ StronglySorted dist_le l'.
Proof.
  induction l as [| x l IH]; intros sorted l' Hs; cbn [fold_left].
  - intros [= <-]. now rewrite app_nil_r.
  - cbn [sort_step bind].
    destruct (insert_by_distance x sorted) as [s' | e] eqn:Hins.
    + intros Hrun.
      destruct (IH s' l' (insert_by_distance_sorted _ _ _ Hs Hins) Hrun)
        as [Hp Hs'].
      split; [| exact Hs'].
      rewrite Hp, (insert_by_distance_perm _ _ _ Hins).
      cbn. apply Permutation_middle.
    + now rewrite sort_raise_sticks.
Qed.

Lemma sort_by_distance_spec l l' :
  sort_by_distance l = Ok l' -> l' ≡ₚ l /\ StronglySorted dist_le l'.
Proof. apply (sort_fold_spec l [] l'). constructor. Qed.

Lemma sort_fold_total : forall l sorted,
  Forall (fun a => is_Some (distance a)) sorted ->
  Forall (fun a => is_Some (distance a)) l ->
  exists l', fold_left sort_step l (Ok sorted) = Ok l'.
Proof.
  induction l as [| x l IH]; intros sorted Hs Hl; cbn [fold_left].
  - eauto.
  - apply Forall_cons in Hl as [Hx Hl]. cbn [sort_step bind].
    destruct (insert_by_distance_total x sorted Hx Hs) as [s' Hins].
    rewrite Hins. apply IH; [| exact Hl].
    rewrite (insert_by_distance_perm _ _ _ Hins). now constructor.
Qed.

Lemma sort_by_distance_total l :
  Forall (fun a => is_Some (distance a)) l ->
  exists l', sort_by_distance l = Ok l'.
Proof. apply (sort_fold_total l []). constructor. Qed.

(** **** The handler *)

(** C8: with the credential configured and a distance reported for
    every result, the handler returns an array; and whatever array it
    returns has no name twice, holds for each name the entry built from
    the first visited result of that name, is in ascending order of
    distance and has at most 30 entries. *)
Theorem nearby_attractions_deduplicated_sorted_capped env data :
  (key_present (NEXT_PUBLIC_TOMTOM_KEY env) = true ->
   (forall r, r ∈ all_results env data -> is_Some (TomTom.dist r)) ->
   exists l, get_nearby_attractions env data = Ok (Attractions l)) /\
  (forall l,
      get_nearby_attractions env data = Ok (Attractions l) ->
      NoDup (name <$> l) /\
      (forall a, a ∈ l ->
         exists r, first_named (name a) (all_results env data) = Some r /\
                   a = attraction_of (name a) r) /\
      StronglySorted dist_le l /\
      (length l <= 30)%nat).
Proof.
  pose proof (visited_all env data) as Hv.
  unfold get_nearby_attractions.
  destruct (fold_left (visit_keyword env data) search_keywords ([], ∅))
    as [attractions seen_names].
  destruct Hv as [_ Hnd Hfirst _]. cbn [fst snd] in *.
  split.
  - intros -> Hdist. cbn [negb].
    destruct (sort_by_distance_total attractions) as [sorted ->];
      [| cbn; eauto].
    apply Forall_forall. intros a Ha.
    destruct (Hfirst a Ha) as (r & Hr & ->).
    apply first_named_elem in Hr as [Hr _]. cbn. auto.
  - intros l. destruct (negb _); [discriminate |].
    destruct (sort_by_distance attractions) as [sorted |] eqn:Hsort;
      cbn; [| discriminate].
    intros [= <-].
    apply sort_by_distance_spec in Hsort as [Hperm Hsorted].
    split; [| split; [| split]].
    + rewrite fmap_take. eapply sublist_NoDup; [| apply sublist_take].
      now rewrite Hperm.
    + intros a Ha. apply Hfirst. rewrite <- Hperm.
      eapply subseteq_take, Ha.
    + rewrite <- (take_drop 30 sorted) in Hsorted.
      now apply StronglySorted_app_1_l in Hsorted.
    + rewrite length_take. lia.
Qed.

Lemma float_lt_true (x y : R) : (x < y)%R -> float_lt x y = true.
Proof. intros H. unfold float_lt. destruct (Rlt_dec x y); [auto | lra]. Qed.

Lemma float_lt_false (x y : R) : (y <= x)%R -> float_lt x y = false.
Proof. intros H. unfold float_lt. destruct (Rlt_dec x y); [lra | auto]. Qed.

Ltac sort_steps :=
  cbn [fold_left sort_step bind insert_by_distance key_lt distance
       attraction_of TomTom.dist lakeside_from_park fort gallery place].

Lemma two_searches_results :
  all_results two_searches_env here =
  [lakeside_from_park; fort; unnamed_result; lakeside_from_museum; gallery].
Proof. reflexivity. Qed.

(** Lakeside is found by two searches: the entry of the first search is
    kept although the second is nearer, and the array is in order. *)
Lemma two_searches_answer :
  get_nearby_attractions two_searches_env here =
  Ok (Attractions [attraction_of "Fort" fort;
                   attraction_of "Gallery" gallery;
                   attraction_of "Lakeside" lakeside_from_park]).
Proof.
  unfold get_nearby_attractions. cbn [negb key_present two_searches_env
    NEXT_PUBLIC_TOMTOM_KEY str_truthy].
  rewrite visit_keywords_flat.
  change (flat_map _ search_keywords)
    with (all_results two_searches_env here).
  rewrite two_searches_results.
  assert (Hloop : exists seen_names,
             fold_left visit_result
               [lakeside_from_park; fort; unnamed_result;
                lakeside_from_museum; gallery] ([], ∅)
             = ([attraction_of "Lakeside" lakeside_from_park;
                 attraction_of "Fort" fort;
                 attraction_of "Gallery" gallery], seen_names)).
  { eexists. vm_compute. reflexivity. }
  destruct Hloop as [seen_names ->].
  unfold sort_by_distance.
  sort_steps. rewrite (float_lt_true 100 300) by lra.
  sort_steps. rewrite (float_lt_false 200 100) by lra.
  sort_steps. rewrite (float_lt_true 200 300) by lra.
  reflexivity.
Qed.

(** The two searches above, through the theorem: the handler returns an
    array, and that array has no name twice, is in order and is short. *)
Lemma nearby_attractions_deduplicated_sorted_capped_witness :
  exists l,
    get_nearby_attractions two_searches_env here = Ok (Attractions l) /\
    NoDup (name <$> l) /\ StronglySorted dist_le l /\ (length l <= 30)%nat.
Proof.
  destruct (nearby_attractions_deduplicated_sorted_capped
              two_searches_env here) as [Hreturns Hshape].
  destruct Hreturns as [l Hl]; [reflexivity | |].
  - rewrite two_searches_results. intros r Hr.
    repeat (apply elem_of_cons in Hr as [-> | Hr]; [cbn; eauto |]).
    now apply elem_of_nil in Hr.
  - exists l. split; [exact Hl |].
    destruct (Hshape l Hl) as (Hnd & _ & Hsorted & Hlen). auto.
Defined.

End PoiFacts.

(** *** Further facts about the distance utility *)

Module GeoMore.

Import Geo.
Local Open Scope R_scope.

Lemma atan2_first_quadrant (y x : R) :
  0 <= y -> 0 <= x -> 0 <= atan2 y x <= PI / 2.
Proof.
  intros Hy Hx. pose proof PI_RGT_0 as Hpi. unfold atan2.
  destruct (Rlt_dec 0 x) as [Hpos | Hzero].
  - pose proof (atan_bound (y / x)) as [_ Hub].
    split; [| lra].
    destruct (Req_dec y 0) as [-> | Hne].
    + replace (0 / x) with 0 by (field; lra). rewrite atan_0. lra.
    + rewrite <- atan_0. left. apply atan_increasing.
      apply Rdiv_lt_0_compat; lra.
  - destruct (Rlt_dec x 0); [lra |].
    destruct (Rlt_dec 0 y); [lra |].
    destruct (Rlt_dec y 0); lra.
Qed.

(** X1: whenever the utility returns a distance for four floats, that
    distance lies between 0 and half the circumference of the sphere,
    6371 times pi. *)
Theorem haversine_result_in_range (lat1 lon1 lat2 lon2 d : R) :
  haversine (Some lat1) (Some lon1) (Some lat2) (Some lon2) = Ok d ->
  0 <= d <= R_earth * PI.
Proof.
  unfold haversine. cbn [radians bind].
  set (a := hav_a _ _ _ _).
  unfold py_sqrt.
  destruct (Rlt_dec a 0) as [| Ha]; cbn [bind]; [discriminate |].
  destruct (Rlt_dec (1 - a) 0) as [| Hb]; cbn [bind]; [discriminate |].
  intros [= <-].
  pose proof (atan2_first_quadrant (sqrt a) (sqrt (1 - a))
                (sqrt_pos _) (sqrt_pos _)) as [Hlo Hhi].
  unfold R_earth. split; nra.
Qed.

Lemma haversine_result_in_range_witness :
  0 <= R_earth * ((1 - 0) * (PI / 180)) <= R_earth * PI.
Proof.
  apply (haversine_result_in_range 0 0 0 1).
  rewrite GeoFacts.haversine_floats. f_equal.
  apply GeoFacts.km_equator. lra.
Defined.

(** X2: a [None] among the four arguments makes the utility raise
    [TypeError], whatever the other arguments are. *)
Theorem haversine_of_none_raises (lat1 lon1 lat2 lon2 : option R) :
  lat1 = None \/ lon1 = None \/ lat2 = None \/ lon2 = None ->
  haversine lat1 lon1 lat2 lon2 = Raise TypeError.
Proof.
  intros H.
  destruct lat1 as [a |]; [| reflexivity].
  destruct lon1 as [b |]; [| reflexivity].
  destruct lat2 as [c |]; [| reflexivity].
  destruct lon2 as [d |]; [| reflexivity].
  destruct H as [H | [H | [H | H]]]; discriminate.
Qed.

Lemma haversine_of_none_raises_witness :
  haversine (Some 0) (Some 0) (Some 0.5) None = Raise TypeError.
Proof.
  apply (haversine_of_none_raises (Some 0) (Some 0) (Some 0.5) None).
  do 3 right. reflexivity.
Defined.

(** The central angle when [a] is the squared sine of half of it. *)
Lemma central_angle (x : R) :
  0 <= x <= PI / 2 ->
  atan2 (sqrt (sin x * sin x)) (sqrt (1 - sin x * sin x)) = x.
Proof.
  intros Hx. pose proof PI_RGT_0.
  assert (Hs : 0 <= sin x) by (apply sin_ge_0; lra).
  assert (Hc : 0 <= cos x) by (apply cos_ge_0; lra).
  assert (Hb : 1 - sin x * sin x = cos x * cos x).
  { pose proof (sin2_cos2 x) as H1. unfold Rsqr in H1. lra. }
  rewrite Hb, !sqrt_square by assumption.
  now apply GeoFacts.atan2_sin_cos.
Qed.

(** X3: between two points of the equator at most half a turn apart the
    distance is the radius times the difference of longitude in radians. *)
Theorem distance_along_equator (l1 l2 : R) :
  l1 <= l2 <= l1 + 180 ->
  distance (0, l1) (0, l2) = Ok (R_earth * ((l2 - l1) * (PI / 180))).
Proof.
  intros Hl. unfold distance. cbn [fst snd].
  rewrite GeoFacts.haversine_floats. f_equal.
  now apply GeoFacts.km_equator.
Qed.

Lemma distance_along_equator_witness :
  distance (0, 0) (0, 1) = Ok (R_earth * ((1 - 0) * (PI / 180))).
Proof. apply (distance_along_equator 0 1). lra. Defined.

Lemma km_meridian (p1 p2 l : R) :
  p1 <= p2 <= p1 + 180 ->
  km p1 l p2 l = R_earth * ((p2 - p1) * (PI / 180)).
Proof.
  intros [Hle Hhalf]. unfold km. cbv zeta.
  set (x := (p2 * (PI / 180) - p1 * (PI / 180)) / 2).
  assert (Hx : 0 <= x <= PI / 2).
  { unfold x. pose proof PI_RGT_0. split; nra. }
  assert (Ha : hav_a (p1 * (PI / 180)) (l * (PI / 180))
                     (p2 * (PI / 180)) (l * (PI / 180)) = sin x * sin x).
  { unfold hav_a. fold x.
    replace ((l * (PI / 180) - l * (PI / 180)) / 2) with 0 by lra.
    rewrite sin_0. ring. }
  rewrite Ha, central_angle by assumption.
  unfold x. field.
Qed.

(** X4: between two points of one meridian at most half a turn apart the
    distance is the radius times the difference of latitude in radians. *)
Theorem distance_along_meridian (p1 p2 l : R) :
  p1 <= p2 <= p1 + 180 ->
  distance (p1, l) (p2, l) = Ok (R_earth * ((p2 - p1) * (PI / 180))).
Proof.
  intros Hp. unfold distance. cbn [fst snd].
  rewrite GeoFacts.haversine_floats. f_equal.
  now apply km_meridian.
Qed.

Lemma distance_along_meridian_witness :
  distance (16, 80) (17, 80) = Ok (R_earth * ((17 - 16) * (PI / 180))).
Proof. apply (distance_along_meridian 16 17 80). lra. Defined.

End GeoMore.

(** *** Further facts about the safety scorer *)

Module ScorerMore.

Import Scorer Scenarios MoreScenarios.

(** The test of line 99. *)
Lemma night_rule_cases now st :
  (night_rule now st = st /\ 6 <= Time.hour now <= 22) \/
  (night_rule now st = (fst st - 30, snd st ++ [night_reason]) /\
   (Time.hour now < 6 \/ 22 < Time.hour now)).
Proof.
  unfold night_rule.
  destruct (Time.hour now <? 6) eqn:H6; cbn [orb].
  - right. apply Z.ltb_lt in H6. auto.
  - destruct (22 <? Time.hour now) eqn:H22.
    + right. apply Z.ltb_lt in H22. auto.
    + left. apply Z.ltb_ge in H6, H22. split; [reflexivity | lia].
Qed.

(** The state after the weather rules: one of four, by the two tests. *)
Lemma weather_rules_cases env weather st :
  weather_rules env weather (100, []) = Ok st ->
  st = (100, []) \/
  (exists r, st = (75, [r])) \/
  (exists r, st = (85, [r])) \/
  (exists r r', st = (60, [r; r'])).
Proof.
  unfold weather_rules. destruct weather as [w |]; [| intros [= <-]; auto].
  destruct (main_weather_of w) as [mw | e]; cbn [bind]; [| discriminate].
  destruct (is_adverse mw), (is_hot (temp_of w)); intros [= <-]; cbn; eauto 6.
Qed.

(** X5: in every response the level follows from the number of reasons:
    Safe with at most one reason, Caution with two, Unsafe with three,
    and there are never more; the score is 100 exactly when no reason is
    given. *)
Theorem level_follows_number_of_reasons env now data resp :
  calculate_safety_score env now data = Ok resp ->
  level resp = match length (reasons resp) with
               | 0%nat | 1%nat => "Safe"
               | 2%nat => "Caution"
               | _ => "Unsafe"
               end /\
  (length (reasons resp) <= 3)%nat /\
  (score resp = 100 <-> reasons resp = []).
Proof.
  unfold calculate_safety_score, score_before_clamp.
  destruct (weather_rules env _ (100, [])) as [st | e] eqn:Hw;
    cbn [bind]; [| discriminate].
  intros [= <-]. cbn [score level reasons].
  apply weather_rules_cases in Hw.
  destruct (night_rule_cases now st) as [[-> _] | [-> _]];
    destruct Hw as [-> | [[r ->] | [[r ->] | (r & r' & ->)]]];
    cbn; (split; [reflexivity |]); (split; [lia |]);
    split; intros H; try discriminate; try lia; try reflexivity.
Qed.

Lemma rainy_hot_night_response :
  calculate_safety_score rainy_env (Time.hours 23) here =
  Ok {| score := 30;
        level := "Unsafe";
        reasons := ["Adverse weather predicted: Rain.";
                    "Potential for extreme heat: 40.0°C.";
                    "Late night travel increases risk."];
        district := "Vijayawada" |}.
Proof.
  unfold calculate_safety_score.
  now rewrite ScorerFacts.rainy_hot_night_before_clamp.
Qed.

Lemma level_follows_number_of_reasons_witness :
  exists resp,
    calculate_safety_score rainy_env (Time.hours 23) here = Ok resp /\
    level resp = "Unsafe" /\ (length (reasons resp) <= 3)%nat.
Proof.
  eexists. split; [exact rainy_hot_night_response |].
  destruct (level_follows_number_of_reasons _ _ _ _ rainy_hot_night_response)
    as (Hlevel & Hlen & _).
  split; [exact Hlevel | exact Hlen].
Defined.

(** X6: without the credential, or when the request to the weather
    service fails, the scorer answers all the same: nothing is deducted
    for the weather, the district is N/A, and the score is 100 by day and
    70 at night. *)
Theorem no_weather_data_response env now data :
  key_present (OPENWEATHER_API_KEY env) = false \/
  weather_api env (lat_to_check data) (lon_to_check data) = None ->
  let night := (Time.hour now <? 6) || (22 <? Time.hour now) in
  calculate_safety_score env now data =
  Ok {| score := if night then 70 else 100;
        level := "Safe";
        reasons := if night then [night_reason] else [];
        district := "N/A" |}.
Proof.
  intros Hnone night.
  assert (Hw : get_weather_data env (lat_to_check data) (lon_to_check data)
               = None).
  { unfold get_weather_data. destruct Hnone as [-> | ->]; [reflexivity |].
    now destruct (key_present _). }
  unfold calculate_safety_score, score_before_clamp, night_rule.
  rewrite Hw. cbn [weather_rules bind]. fold night.
  now destruct night.
Qed.

Lemma no_weather_data_response_witness :
  calculate_safety_score no_weather_key_env (Time.hours 23) here =
  Ok {| score := 70;
        level := "Safe";
        reasons := [night_reason];
        district := "N/A" |}.
Proof.
  apply (no_weather_data_response no_weather_key_env (Time.hours 23) here).
  left. reflexivity.
Defined.

(** X7: with the credential set, a weather reply whose ["weather"] list
    is empty makes the scorer raise [IndexError], whatever the rest of the
    reply and the hour are. *)
Theorem scorer_raises_on_empty_weather_list env now data w :
  key_present (OPENWEATHER_API_KEY env) = true ->
  weather_api env (lat_to_check data) (lon_to_check data) = Some w ->
  Weather.weather w = Some [] ->
  calculate_safety_score env now data = Raise IndexError.
Proof.
  intros Hkey Hw Hempty.
  unfold calculate_safety_score, score_before_clamp, get_weather_data.
  rewrite Hkey, Hw. unfold weather_rules, main_weather_of.
  now rewrite Hempty.
Qed.

Lemma scorer_raises_on_empty_weather_list_witness :
  calculate_safety_score ScorerSpec.no_conditions_env (Time.hours 12) here
  = Raise IndexError.
Proof.
  apply (scorer_raises_on_empty_weather_list
           ScorerSpec.no_conditions_env (Time.hours 12) here
           ScorerSpec.no_conditions_reply);
    reflexivity.
Defined.

(** X8: the hour changes the response in one way only. A request scored
    by day and the same request scored at night, against the same weather,
    differ by 30 points and by the night reason, which comes last. *)
Theorem night_costs_thirty env day night data resp :
  6 <= Time.hour day <= 22 ->
  Time.hour night < 6 \/ 22 < Time.hour night ->
  calculate_safety_score env day data = Ok resp ->
  calculate_safety_score env night data =
  Ok {| score := score resp - 30;
        level := level_of (score resp - 30);
        reasons := reasons resp ++ [night_reason];
        district := district resp |}.
Proof.
  intros Hday Hnight.
  unfold calculate_safety_score, score_before_clamp.
  destruct (weather_rules env _ (100, [])) as [st | e] eqn:Hw;
    cbn [bind]; [| discriminate].
  pose proof (ScorerFacts.weather_rules_score _ _ _ _ _ Hw) as Hrange.
  destruct (night_rule_cases day st) as [[-> _] | [_ Hbad]]; [| lia].
  destruct (night_rule_cases night st) as [[_ Hbad] | [-> _]]; [lia |].
  intros [= <-]. cbn [fst snd score level reasons district].
  rewrite !Z.max_r by lia. reflexivity.
Qed.

Lemma mild_rain_by_day :
  calculate_safety_score mild_rain_env (Time.hours 12) here =
  Ok {| score := 75;
        level := "Safe";
        reasons := ["Adverse weather predicted: Rain."];
        district := "Vijayawada" |}.
Proof.
  unfold calculate_safety_score, score_before_clamp, get_weather_data,
    weather_rules.
  cbn -[is_hot]. rewrite ScorerFacts.is_hot_false by lra. reflexivity.
Qed.

Lemma night_costs_thirty_witness :
  calculate_safety_score mild_rain_env (Time.hours 23) here =
  Ok {| score := 45;
        level := "Caution";
        reasons := ["Adverse weather predicted: Rain."; night_reason];
        district := "Vijayawada" |}.
Proof.
  apply (night_costs_thirty mild_rain_env (Time.hours 12) (Time.hours 23)
           here _ ltac:(vm_compute; split; discriminate)
           ltac:(right; reflexivity) mild_rain_by_day).
Defined.

(** X9: of the list of weather conditions only the first entry is read.
    Two replies that agree on it, on the temperature and on the name give
    the same response. *)
Theorem only_first_weather_entry_counts env env' now data w w' c l l' :
  OPENWEATHER_API_KEY env' = OPENWEATHER_API_KEY env ->
  str_of_float env' = str_of_float env ->
  weather_api env (lat_to_check data) (lon_to_check data) = Some w ->
  weather_api env' (lat_to_check data) (lon_to_check data) = Some w' ->
  Weather.weather w = Some (c :: l) ->
  Weather.weather w' = Some (c :: l') ->
  Weather.main w' = Weather.main w ->
  Weather.name w' = Weather.name w ->
  calculate_safety_score env' now data = calculate_safety_score env now data.
Proof.
  intros Hkey Hfmt Hw Hw' Hl Hl' Hmain Hname.
  unfold calculate_safety_score, score_before_clamp, get_weather_data.
  rewrite Hkey, Hw, Hw'.
  destruct (key_present _); [| reflexivity].
  unfold weather_rules, main_weather_of, temp_of, district_of, heat_reason.
  now rewrite Hl, Hl', Hmain, Hname, Hfmt.
Qed.

Lemma only_first_weather_entry_counts_witness :
  calculate_safety_score rain_then_clouds_env (Time.hours 12) here =
  calculate_safety_score mild_rain_env (Time.hours 12) here.
Proof.
  apply (only_first_weather_entry_counts mild_rain_env rain_then_clouds_env
           (Time.hours 12) here mild_rain_reply rain_then_clouds_reply
           {| Weather.cond_main := Some "Rain" |} []
           [ {| Weather.cond_main := Some "Clouds" |} ]);
    reflexivity.
Defined.

End ScorerMore.

(** *** Further facts about the anomaly detector and the sweep *)

Module TrackerMore.

Import Tracker TrackerSpec Scenarios MoreScenarios SweepSpec.

Lemma deviation_guard_true data last :
  deviation_guard data last = true <->
  (exists a, TrackingData.destination_lat data = Some a /\ a <> 0%R) /\
  is_Some (destination last).
Proof.
  unfold deviation_guard. rewrite andb_true_iff, bool_decide_eq_true.
  apply and_iff_compat_r.
  destruct (TrackingData.destination_lat data) as [a |]; cbn.
  - unfold float_truthy. destruct (Req_dec_T a 0) as [-> | Hne].
    + split; [discriminate | intros (? & [= <-] & ?); lra].
    + split; [eauto | reflexivity].
  - split; [discriminate | intros (? & [=] & _)].
Qed.

(** X10: a report with a non-zero [destination_lat] and no
    [destination_lon], about a tourist whose stored record has a
    destination, is never answered: the handler raises. *)
Theorem latitude_only_after_destination_raises st now data last a :
  st !! TrackingData.tourist_id data = Some last ->
  is_Some (destination last) ->
  TrackingData.destination_lat data = Some a -> a <> 0%R ->
  TrackingData.destination_lon data = None ->
  exists e,
    outcome (track_location_and_detect_anomalies st now data) = Raise e.
Proof.
  intros Hst Hdest Hlat Ha Hlon.
  assert (Hg : deviation_guard data last = true)
    by (apply deviation_guard_true; eauto).
  rewrite (TrackerFacts.track_raises _ _ _ _ Hst Hg Hlon). cbn. eauto.
Qed.

Lemma latitude_only_after_destination_raises_witness :
  exists e,
    outcome (track_location_and_detect_anomalies
               alone (Time.minutes 5) latitude_only) = Raise e.
Proof.
  apply (latitude_only_after_destination_raises
           alone (Time.minutes 5) latitude_only
           at_origin_with_destination 0.5%R).
  - apply lookup_singleton_eq.
  - cbn. eauto.
  - reflexivity.
  - lra.
  - reflexivity.
Defined.

(** X11: for a report with a non-zero [destination_lat] and a
    [destination_lon], about a tourist whose stored record has a
    destination: whenever the handler answers, the deviation anomaly is
    answered, and printed, exactly when the reported position is more
    than 0.2 km farther from the reported destination than the stored
    position is. *)
Theorem route_deviation_on_full_destination st now data last a b st' resp :
  st !! TrackingData.tourist_id data = Some last ->
  TrackingData.destination_lat data = Some a -> a <> 0%R ->
  TrackingData.destination_lon data = Some b ->
  is_Some (destination last) ->
  let run := track_location_and_detect_anomalies st now data in
  let anomaly := deviation_anomaly (TrackingData.tourist_id data) in
  let farther :=
    exists d_new d_old,
      Geo.distance (TrackingData.latitude data, TrackingData.longitude data)
                   (a, b) = Ok d_new /\
      Geo.distance (lat last, lon last) (a, b) = Ok d_old /\
      (d_new > d_old + 0.2)%R in
  outcome run = Ok (st', resp) ->
  (In anomaly (anomalies resp) <-> farther) /\
  (In (alert anomaly) (stdout run) <-> farther).
Proof.
  intros Hst Hlat Ha Hlon Hdest run anomaly farther.
  assert (Hg : deviation_guard data last = true)
    by (apply deviation_guard_true; eauto).
  assert (Hfar : deviates data last a b = true <-> farther).
  { unfold farther, deviates, Geo.distance, float_gt, float_lt.
    cbn [fst snd]. rewrite !GeoFacts.haversine_floats. split.
    - intros H. eexists _, _. split; [reflexivity |]. split; [reflexivity |].
      destruct (Rlt_dec _ _); [lra | discriminate].
    - intros (d1 & d0 & [= <-] & [= <-] & Hd).
      destruct (Rlt_dec _ _); [reflexivity | lra]. }
  unfold run.
  rewrite (TrackerFacts.track_guarded _ _ _ _ _ _ Hst Hg Hlat Hlon).
  cbn zeta. cbn [outcome snd]. intros [= _ <-].
  subst anomaly. cbn [anomalies stdout fst].
  rewrite TrackerFacts.in_map_alert, TrackerFacts.in_deviation_found.
  split; exact Hfar.
Qed.

Lemma walked_south_is_farther :
  exists d_new d_old,
    Geo.distance (TrackingData.latitude walked_south,
                  TrackingData.longitude walked_south)
                 (0.5%R, 0%R) = Ok d_new /\
    Geo.distance (lat at_origin_with_destination,
                  lon at_origin_with_destination)
                 (0.5%R, 0%R) = Ok d_old /\
    (d_new > d_old + 0.2)%R.
Proof.
  unfold Geo.distance. cbn [fst snd walked_south at_origin_with_destination
    TrackingData.latitude TrackingData.longitude lat lon].
  rewrite !GeoFacts.haversine_floats. eexists _, _.
  split; [reflexivity |]. split; [reflexivity |].
  rewrite !GeoMore.km_meridian by lra.
  unfold Geo.R_earth. pose proof TrackerFacts.PI_gt_3. nra.
Qed.

Lemma walked_south_guard :
  deviation_guard walked_south at_origin_with_destination = true.
Proof.
  apply deviation_guard_true. split; [| cbn; eauto].
  exists 0.5%R. split; [reflexivity | lra].
Qed.

(** One degree farther from a destination half a degree away: reported. *)
Lemma route_deviation_on_full_destination_witness :
  exists st' resp,
    outcome (track_location_and_detect_anomalies
               alone (Time.minutes 5) walked_south) = Ok (st', resp) /\
    In "Route deviation detected for tourist t1." (anomalies resp).
Proof.
  pose proof (TrackerFacts.track_guarded
                alone (Time.minutes 5) walked_south
                at_origin_with_destination 0.5%R 0%R
                (lookup_singleton_eq _ _) walked_south_guard eq_refl eq_refl)
    as Hrun.
  cbv zeta in Hrun. apply (f_equal snd) in Hrun. cbn [snd] in Hrun.
  eexists _, _. split; [exact Hrun |].
  refine (proj2 (proj1 (route_deviation_on_full_destination
                          alone (Time.minutes 5) walked_south
                          at_origin_with_destination 0.5%R 0%R _ _
                          (lookup_singleton_eq _ _) eq_refl _ eq_refl _
                          Hrun)) walked_south_is_farther).
  - lra.
  - cbn. eauto.
Defined.

(** X12: an answered report changes the store in one place: the
    reporter's key now holds the reported position and the time of the
    report, with the reported destination when [destination_lat] is a
    non-zero float and with none otherwise; the keys are the old keys and
    the reporter's; every other key holds what it held. *)
Theorem track_writes_one_record st now data st' resp :
  outcome (track_location_and_detect_anomalies st now data)
  = Ok (st', resp) ->
  let tourist_id := TrackingData.tourist_id data in
  let written :=
    {| lat := TrackingData.latitude data;
       lon := TrackingData.longitude data;
       timestamp := now;
       destination :=
         match TrackingData.destination_lat data with
         | Some a =>
             if Req_dec_T a 0 then None
             else Some {| dest_lat := Some a;
                          dest_lon := TrackingData.destination_lon data |}
         | None => None
         end |} in
  st' !! tourist_id = Some written /\
  dom st' = {[ tourist_id ]} ∪ dom st /\
  (forall other, other <> tourist_id -> st' !! other = st !! other) /\
  status resp = "location updated".
Proof.
  intros Hrun tourist_id written.
  apply TrackerFacts.track_store_effect in Hrun as [-> Hstatus].
  assert (Hwritten : new_record now data = written).
  { unfold new_record, written. f_equal.
    destruct (TrackingData.destination_lat data) as [a |]; cbn;
      [| reflexivity].
    unfold float_truthy.
    now destruct (Req_dec_T a 0). }
  split; [now rewrite lookup_insert_eq, Hwritten |].
  split; [now rewrite dom_insert_L |].
  split; [| exact Hstatus].
  intros other Hne. now apply lookup_insert_ne.
Qed.

Lemma with_company_t1 :
  with_company !! TrackingData.tourist_id walked_south
  = Some at_origin_with_destination.
Proof.
  unfold with_company, alone.
  rewrite lookup_insert_ne by discriminate. apply lookup_singleton_eq.
Qed.

Lemma track_writes_one_record_witness :
  exists st' resp,
    outcome (track_location_and_detect_anomalies
               with_company (Time.minutes 5) walked_south) = Ok (st', resp) /\
    st' !! "t2" = Some resting_before /\
    dom st' = {[ "t1" ]} ∪ dom with_company.
Proof.
  pose proof (TrackerFacts.track_guarded
                with_company (Time.minutes 5) walked_south
                at_origin_with_destination 0.5%R 0%R
                with_company_t1 walked_south_guard eq_refl eq_refl) as Hrun.
  cbv zeta in Hrun. apply (f_equal snd) in Hrun. cbn [snd] in Hrun.
  eexists _, _. split; [exact Hrun |].
  destruct (track_writes_one_record _ _ _ _ _ Hrun) as (_ & Hdom & Hrest & _).
  split; [| exact Hdom].
  rewrite Hrest by discriminate. reflexivity.
Defined.

(** X13: the lines printed by an answered report are the answered
    anomalies, one alert each, in the same order; and the answer holds
    the inactivity anomaly before the deviation anomaly, each at most
    once and nothing else. *)
Theorem printed_alerts_match_answer st now data st' resp :
  outcome (track_location_and_detect_anomalies st now data)
  = Ok (st', resp) ->
  let tourist_id := TrackingData.tourist_id data in
  stdout (track_location_and_detect_anomalies st now data)
  = map alert (anomalies resp) /\
  exists inactivity deviation : bool,
    anomalies resp =
    when inactivity (inactivity_anomaly tourist_id)
    ++ when deviation (deviation_anomaly tourist_id).
Proof.
  intros Hrun tourist_id.
  destruct (st !! TrackingData.tourist_id data) as [last |] eqn:Hst.
  - destruct (TrackerFacts.track_cases st now data last Hst)
      as (d & Hout & [Hres | Hres]);
      rewrite Hres in Hrun; [discriminate |].
    injection Hrun as _ <-. cbn [anomalies].
    split; [exact Hout | eauto].
  - rewrite (TrackerFacts.track_first_report _ _ _ Hst) in Hrun |- *.
    cbn in Hrun |- *. injection Hrun as _ <-.
    split; [reflexivity |]. exists false, false. reflexivity.
Qed.

Lemma printed_alerts_match_answer_witness :
  exists st' resp,
    outcome (track_location_and_detect_anomalies
               alone (Time.minutes 5) walked_south) = Ok (st', resp) /\
    stdout (track_location_and_detect_anomalies
              alone (Time.minutes 5) walked_south)
    = map alert (anomalies resp).
Proof.
  pose proof (TrackerFacts.track_guarded
                alone (Time.minutes 5) walked_south
                at_origin_with_destination 0.5%R 0%R
                (lookup_singleton_eq _ _) walked_south_guard eq_refl eq_refl)
    as Hrun.
  cbv zeta in Hrun. apply (f_equal snd) in Hrun. cbn [snd] in Hrun.
  eexists _, _. split; [exact Hrun |].
  apply (printed_alerts_match_answer _ _ _ _ _ Hrun).
Defined.

(** X14: what a report prints and what is answered to it depend on the
    store through the reporter's own record only: two stores that agree
    on the reporter give the same lines and the same response, or the
    same exception. *)
Theorem other_tourists_do_not_matter st1 st2 now data :
  st1 !! TrackingData.tourist_id data = st2 !! TrackingData.tourist_id data ->
  let run1 := track_location_and_detect_anomalies st1 now data in
  let run2 := track_location_and_detect_anomalies st2 now data in
  stdout run1 = stdout run2 /\
  match outcome run1, outcome run2 with
  | Ok (_, resp1), Ok (_, resp2) => resp1 = resp2
  | Raise e1, Raise e2 => e1 = e2
  | _, _ => False
  end.
Proof.
  intros Hsame run1 run2. subst run1 run2.
  unfold track_location_and_detect_anomalies. rewrite Hsame.
  destruct (match st2 !! TrackingData.tourist_id data with
            | Some last_update => _
            | None => _
            end) as [out [found | e]]; cbn; auto.
Qed.

Lemma other_tourists_do_not_matter_witness :
  stdout (track_location_and_detect_anomalies
            alone (Time.minutes 5) walked_south)
  = stdout (track_location_and_detect_anomalies
              with_company (Time.minutes 5) walked_south).
Proof.
  apply (other_tourists_do_not_matter alone with_company
           (Time.minutes 5) walked_south).
  rewrite with_company_t1. apply lookup_singleton_eq.
Defined.

(** X15: of a stored destination only the presence is used, never the
    coordinates: replacing the destination of the reporter's record by
    any other destination changes neither the lines, nor the response,
    nor the store that results. *)
Theorem stored_destination_coordinates_unused st now data last d d' :
  st !! TrackingData.tourist_id data = Some last ->
  destination last = Some d ->
  let last' := {| lat := lat last; lon := lon last;
                  timestamp := timestamp last; destination := Some d' |} in
  track_location_and_detect_anomalies
    (<[TrackingData.tourist_id data := last']> st) now data
  = track_location_and_detect_anomalies st now data.
Proof.
  intros Hst Hd last'.
  unfold track_location_and_detect_anomalies.
  rewrite lookup_insert_eq, Hst, insert_insert_eq.
  unfold check_inactivity, check_deviation, deviation_guard.
  cbn [lat lon timestamp destination last']. rewrite Hd.
  rewrite !bool_decide_eq_true_2 by eauto. reflexivity.
Qed.

Lemma stored_destination_coordinates_unused_witness :
  track_location_and_detect_anomalies
    (<["t1" := {| lat := 0; lon := 0; timestamp := 0;
                  destination := Some {| dest_lat := Some 9%R;
                                         dest_lon := None |} |}]> alone)
    (Time.minutes 5) walked_south
  = track_location_and_detect_anomalies alone (Time.minutes 5) walked_south.
Proof.
  apply (stored_destination_coordinates_unused
           alone (Time.minutes 5) walked_south at_origin_with_destination
           {| dest_lat := Some 0.5%R; dest_lon := Some 0%R |}
           {| dest_lat := Some 9%R; dest_lon := None |}).
  - apply lookup_singleton_eq.
  - reflexivity.
Defined.

(** X16: a report from the stored position is never a route deviation,
    whatever the destination and however long ago the record was
    written: the anomaly is neither printed nor answered. *)
Theorem unchanged_position_never_deviates st now data last :
  st !! TrackingData.tourist_id data = Some last ->
  TrackingData.latitude data = lat last ->
  TrackingData.longitude data = lon last ->
  let run := track_location_and_detect_anomalies st now data in
  let anomaly := deviation_anomaly (TrackingData.tourist_id data) in
  ~ In (alert anomaly) (stdout run) /\
  (forall st' resp, outcome run = Ok (st', resp) ->
                    ~ In anomaly (anomalies resp)).
Proof.
  intros Hst Hlat Hlon run anomaly. subst run anomaly.
  assert (Hsame : forall a b, deviates data last a b = false).
  { intros a b. unfold deviates. rewrite Hlat, Hlon.
    apply ScorerFacts.float_gt_false. lra. }
  assert (Hnone : forall b : bool,
             ~ In (deviation_anomaly (TrackingData.tourist_id data))
                  (when b (inactivity_anomaly (TrackingData.tourist_id data))
                   ++ when false
                        (deviation_anomaly (TrackingData.tourist_id data)))).
  { intros b. rewrite TrackerFacts.in_deviation_found. discriminate. }
  destruct (deviation_guard data last) eqn:Hg.
  - pose proof (proj1 (deviation_guard_true data last) Hg)
      as [(a & Ha & _) _].
    destruct (TrackingData.destination_lon data) as [b |] eqn:Hb.
    + rewrite (TrackerFacts.track_guarded _ _ _ _ _ _ Hst Hg Ha Hb).
      cbn zeta. cbn [stdout outcome fst snd]. rewrite Hsame.
      rewrite TrackerFacts.in_map_alert.
      split; [apply Hnone |]. intros st' resp [= _ <-]. apply Hnone.
    + rewrite (TrackerFacts.track_raises _ _ _ _ Hst Hg Hb).
      cbn [stdout outcome fst snd].
      split; [| discriminate].
      rewrite TrackerFacts.in_map_alert, TrackerFacts.in_when.
      intros [_ H]. symmetry in H.
      now apply TrackerFacts.inactivity_not_deviation in H.
  - rewrite (TrackerFacts.track_unguarded _ _ _ _ Hst Hg).
    cbn zeta. cbn [stdout outcome fst snd].
    rewrite TrackerFacts.in_map_alert, TrackerFacts.in_when.
    split.
    + intros [_ H]. symmetry in H.
      now apply TrackerFacts.inactivity_not_deviation in H.
    + intros st' resp [= _ <-]. cbn [anomalies].
      rewrite TrackerFacts.in_when.
      intros [_ H]. symmetry in H.
      now apply TrackerFacts.inactivity_not_deviation in H.
Qed.

Lemma unchanged_position_never_deviates_witness :
  ~ In (alert (deviation_anomaly "t1"))
       (stdout (track_location_and_detect_anomalies
                  alone (Time.minutes 5) still_at_origin)).
Proof.
  apply (unchanged_position_never_deviates
           alone (Time.minutes 5) still_at_origin at_origin_with_destination).
  - apply lookup_singleton_eq.
  - reflexivity.
  - reflexivity.
Defined.

(** **** The sweep, its lines, and the request followed by its sweep *)

Lemma stale_key_delete_ne now (st : gmap string state_record) k j :
  j <> k -> stale_key now (delete k st) j = stale_key now st j.
Proof. intros H. unfold stale_key. now rewrite lookup_delete_ne. Qed.

Lemma sweep_loop_stdout now keys : forall st : gmap string state_record,
  NoDup keys ->
  (forall k, k ∈ keys -> is_Some (st !! k)) ->
  stdout (sweep_loop now keys st)
  = map dropoff_line (List.filter (stale_key now st) keys).
Proof.
  induction keys as [| k keys IH]; intros st Hnd Hin; [reflexivity |].
  apply NoDup_cons in Hnd as [Hk Hnd].
  destruct (Hin k) as [r Hr]; [left |].
  cbn [sweep_loop List.filter]. unfold sweep_step, stale_key at 1.
  rewrite Hr. fold (stale now r).
  destruct (stale now r) eqn:Hstale.
  - assert (Hrest : forall j, j ∈ keys -> is_Some (delete k st !! j)).
    { intros j Hj. rewrite lookup_delete_ne by (intros ->; contradiction).
      apply Hin. now right. }
    specialize (IH (delete k st) Hnd Hrest). cbn.
    destruct (sweep_loop now keys (delete k st)) as [out r'].
    cbn in IH |- *. rewrite IH. unfold dropoff_line at 2. f_equal. f_equal.
    apply List.filter_ext_in. intros j Hj. apply stale_key_delete_ne.
    intros ->. apply Hk. now apply list_elem_of_In.
  - assert (Hrest : forall j, j ∈ keys -> is_Some (st !! j)).
    { intros j Hj. apply Hin. now right. }
    specialize (IH st Hnd Hrest). cbn.
    destruct (sweep_loop now keys st) as [out r'].
    cbn in IH |- *. exact IH.
Qed.

(** X17: the sweep prints one line per record it removes and no other
    line: the lines are the drop-off alerts of a list of keys without
    repetition, and a key is in that list exactly when the store held a
    stale record for it. *)
Theorem sweep_prints_one_alert_per_removed_record now
    (st : gmap string state_record) :
  exists removed : list string,
    stdout (check_for_sudden_dropoffs now st) = map dropoff_line removed /\
    NoDup removed /\
    forall k, k ∈ removed <->
              exists r, st !! k = Some r /\
                        Time.minutes 15 < now - timestamp r.
Proof.
  exists (List.filter (stale_key now st) (map_to_list st).*1).
  assert (Hnd : NoDup (map_to_list st).*1) by apply NoDup_fst_map_to_list.
  assert (Hkeys : forall k, k ∈ (map_to_list st).*1 <-> is_Some (st !! k)).
  { intros k. rewrite list_elem_of_fmap. split.
    - intros ([k' r] & -> & Hk). apply elem_of_map_to_list in Hk. eauto.
    - intros [r Hr]. exists (k, r).
      split; [reflexivity | now apply elem_of_map_to_list]. }
  split; [| split].
  - unfold check_for_sudden_dropoffs. apply sweep_loop_stdout; [exact Hnd |].
    intros k. apply Hkeys.
  - apply NoDup_ListNoDup, List.NoDup_filter, NoDup_ListNoDup, Hnd.
  - intros k. rewrite list_elem_of_In, List.filter_In, <- list_elem_of_In, Hkeys.
    unfold stale_key, stale. split.
    + intros [[r Hr] Hstale]. rewrite Hr in Hstale.
      exists r. split; [exact Hr | now apply Z.ltb_lt].
    + intros (r & Hr & Hold). rewrite Hr.
      split; [eauto | now apply Z.ltb_lt].
Qed.

Lemma filter_nothing {A} (f : A -> bool) (l : list A) :
  (forall x, x ∈ l -> f x = false) -> List.filter f l = [].
Proof.
  induction l as [| x l IH]; intros H; [reflexivity |].
  cbn. rewrite (H x) by left. apply IH. intros y Hy. apply H. now right.
Qed.

Lemma sweep_of_fresh_store now (st : gmap string state_record) :
  (forall k r, st !! k = Some r -> now - timestamp r <= Time.minutes 15) ->
  check_for_sudden_dropoffs now st = ([], Ok st).
Proof.
  intros Hfresh.
  destruct (TrackerFacts.sweep_spec now st) as (out & st' & Hrun & Hst').
  assert (Hout : stdout (check_for_sudden_dropoffs now st) = []).
  { unfold check_for_sudden_dropoffs. rewrite sweep_loop_stdout.
    - rewrite filter_nothing; [reflexivity |].
      intros k _. unfold stale_key, stale.
      destruct (st !! k) as [r |] eqn:Hr; [| reflexivity].
      apply Z.ltb_ge. eauto.
    - apply NoDup_fst_map_to_list.
    - intros k Hk. apply list_elem_of_fmap in Hk as ([k' r] & -> & Hk).
      apply elem_of_map_to_list in Hk. eauto. }
  rewrite Hrun in Hout |- *. cbn in Hout. subst out.
  f_equal. f_equal. apply map_eq. intros k. rewrite Hst'.
  destruct (st !! k) as [r |] eqn:Hr; [| reflexivity].
  unfold stale. now rewrite (proj2 (Z.ltb_ge _ _) (Hfresh k r Hr)).
Qed.

(** X18: a sweep over a store without a stale record prints nothing and
    leaves the store as it is; so a second sweep at the same instant,
    right after a first one, does nothing. *)
Theorem sweep_is_idempotent now (st : gmap string state_record) :
  ((forall k r, st !! k = Some r -> now - timestamp r <= Time.minutes 15) ->
   check_for_sudden_dropoffs now st = ([], Ok st)) /\
  exists out st',
    check_for_sudden_dropoffs now st = (out, Ok st') /\
    check_for_sudden_dropoffs now st' = ([], Ok st').
Proof.
  split; [apply sweep_of_fresh_store |].
  destruct (TrackerFacts.sweep_spec now st) as (out & st' & Hrun & Hst').
  exists out, st'. split; [exact Hrun |].
  apply sweep_of_fresh_store. intros k r Hk. rewrite Hst' in Hk.
  destruct (st !! k) as [r0 |]; [| discriminate].
  destruct (stale now r0) eqn:Hstale; [discriminate |].
  injection Hk as <-. now apply Z.ltb_ge.
Qed.

(** X19: a request followed by the sweep it schedules. The pair raises
    exactly when the handler does, the sweep adding no exception. When
    the handler answers, the response is the handler's, the reporter's
    record is the one just written unless the sweep runs more than 15
    minutes later, and every other record is gone if stale at the time of
    the sweep and untouched otherwise. *)
Theorem request_then_sweep st now later data :
  (forall e,
      outcome (track_then_sweep st now later data) = Raise e <->
      outcome (track_location_and_detect_anomalies st now data) = Raise e) /\
  (forall st' resp,
      outcome (track_then_sweep st now later data) = Ok (st', resp) ->
      let tourist_id := TrackingData.tourist_id data in
      (exists st1, outcome (track_location_and_detect_anomalies st now data)
                   = Ok (st1, resp)) /\
      st' !! tourist_id =
        (if Time.minutes 15 <? later - now then None
         else Some (new_record now data)) /\
      (forall other, other <> tourist_id ->
         st' !! other =
         match st !! other with
         | Some r => if stale later r then None else Some r
         | None => None
         end)).
Proof.
  unfold track_then_sweep.
  destruct (track_location_and_detect_anomalies st now data)
    as [out [[st1 resp1] | e0]] eqn:Hrun; cbn [io_bind outcome snd fst].
  - destruct (TrackerFacts.sweep_spec later st1)
      as (out' & st2 & Hsweep & Hst2).
    rewrite Hsweep. cbn.
    assert (Hrun' : outcome (track_location_and_detect_anomalies st now data)
                    = Ok (st1, resp1)) by now rewrite Hrun.
    apply TrackerFacts.track_store_effect in Hrun' as [-> _].
    split; [intros e; split; discriminate |].
    intros st' resp [= <- <-]. split; [eauto |]. split.
    + rewrite Hst2, lookup_insert_eq. reflexivity.
    + intros other Hne. now rewrite Hst2, lookup_insert_ne.
  - split; [reflexivity |]. discriminate.
Qed.

End TrackerMore.

(** *** Further facts about the points-of-interest proxy *)

Module PoiMore.

Import Poi PoiSpec PoiKept Scenarios.

Lemma handler_by_kept env data :
  get_nearby_attractions env data =
  if negb (key_present (NEXT_PUBLIC_TOMTOM_KEY env))
  then Ok (ErrorBody "Server configuration issue.")
  else
    let? attractions := sort_by_distance (kept env data) in
    Ok (Attractions (take 30 attractions)).
Proof.
  unfold get_nearby_attractions, kept.
  now destruct (fold_left _ _ _) as [attractions seen_names].
Qed.

Lemma visited_kept env data :
  exists seen_names, visited (all_results env data) (kept env data, seen_names).
Proof.
  pose proof (PoiFacts.visited_all env data) as Hv. unfold kept.
  destruct (fold_left _ _ _) as [attractions seen_names]. eauto.
Qed.

(** X20: when every keyword's request fails or comes back without
    results, the handler still answers, with the empty array. *)
Theorem nothing_found_gives_empty_array env data :
  key_present (NEXT_PUBLIC_TOMTOM_KEY env) = true ->
  (forall keyword,
      results_of (tomtom_api env keyword (LocationData.latitude data)
                             (LocationData.longitude data)) = []) ->
  get_nearby_attractions env data = Ok (Attractions []).
Proof.
  intros Hkey Hempty. rewrite handler_by_kept, Hkey. cbn [negb].
  unfold kept. rewrite PoiFacts.visit_keywords_flat.
  replace (flat_map _ search_keywords) with (@nil TomTom.result_item).
  - reflexivity.
  - induction search_keywords as [| kw kws IH]; [reflexivity |].
    cbn [flat_map]. now rewrite Hempty, <- IH.
Qed.

Lemma nothing_found_gives_empty_array_witness :
  get_nearby_attractions all_failing_env here = Ok (Attractions []).
Proof.
  apply (nothing_found_gives_empty_array all_failing_env here);
    reflexivity.
Defined.

(** The names that are kept are non-empty. *)
Lemma visit_result_names st r :
  Forall (fun a => str_truthy (name a) = true) st.1 ->
  Forall (fun a => str_truthy (name a) = true) (visit_result st r).1.
Proof.
  destruct st as [attractions seen_names]. unfold visit_result.
  destruct (poi_name_of r) as [n |]; [| auto].
  destruct (str_truthy n) eqn:Hn; cbn [andb]; [| auto].
  destruct (bool_decide _); [| auto].
  cbn [fst]. intros H. apply Forall_app. split; [exact H |].
  now repeat constructor.
Qed.

Lemma kept_names_truthy env data :
  Forall (fun a => str_truthy (name a) = true) (kept env data).
Proof.
  unfold kept. rewrite PoiFacts.visit_keywords_flat.
  generalize (flat_map
    (fun keyword =>
       results_of (tomtom_api env keyword (LocationData.latitude data)
                              (LocationData.longitude data)))
    search_keywords).
  intros rs.
  assert (H : Forall (fun a => str_truthy (name a) = true)
                ((([], ∅) : acc).1)) by constructor.
  revert H. generalize (([], ∅) : acc).
  induction rs as [| r rs IH]; intros st H; [exact H |].
  cbn [fold_left]. apply IH, visit_result_names, H.
Qed.

Lemma returned_from_kept env data l :
  get_nearby_attractions env data = Ok (Attractions l) ->
  exists sorted,
    sort_by_distance (kept env data) = Ok sorted /\
    sorted ≡ₚ kept env data /\
    StronglySorted dist_le sorted /\
    l = take 30 sorted.
Proof.
  rewrite handler_by_kept. destruct (negb _); [discriminate |].
  destruct (sort_by_distance (kept env data)) as [sorted |] eqn:Hsort;
    cbn [bind]; [| discriminate].
  intros [= <-]. exists sorted.
  destruct (PoiFacts.sort_by_distance_spec _ _ Hsort). auto.
Qed.

(** X21: no entry of the returned array has an empty name, and every
    entry carries the name of a result some search returned: a result
    without a name, or with the empty name, is never returned. *)
Theorem returned_names_are_real env data l :
  get_nearby_attractions env data = Ok (Attractions l) ->
  forall a, a ∈ l ->
    name a <> "" /\
    exists r, r ∈ all_results env data /\ poi_name_of r = Some (name a).
Proof.
  intros Hrun a Ha.
  destruct (returned_from_kept _ _ _ Hrun) as (sorted & _ & Hperm & _ & ->).
  assert (Hkept : a ∈ kept env data).
  { rewrite <- Hperm. eapply subseteq_take, Ha. }
  split.
  - pose proof (kept_names_truthy env data) as Hall.
    rewrite Forall_forall in Hall. specialize (Hall a Hkept).
    now destruct (name a).
  - destruct (visited_kept env data) as [seen_names [_ _ Hfirst _]].
    destruct (Hfirst a Hkept) as (r & Hr & _).
    apply PoiFacts.first_named_elem in Hr. eauto.
Qed.

Lemma returned_names_are_real_witness :
  name (attraction_of "Gallery" gallery) <> "" /\
  exists r, r ∈ all_results two_searches_env here /\
            poi_name_of r = Some (name (attraction_of "Gallery" gallery)).
Proof.
  apply (returned_names_are_real two_searches_env here _
           PoiFacts.two_searches_answer (attraction_of "Gallery" gallery)).
  right. left.
Defined.

(** X22: when fewer than 30 entries are returned nothing was cut: every
    non-empty name that any search returned is in the array. *)
Theorem short_answer_is_complete env data l :
  get_nearby_attractions env data = Ok (Attractions l) ->
  (length l < 30)%nat ->
  forall r n, r ∈ all_results env data -> poi_name_of r = Some n ->
              n <> "" -> n ∈ name <$> l.
Proof.
  intros Hrun Hshort r n Hr Hn Hne.
  destruct (returned_from_kept _ _ _ Hrun) as (sorted & _ & Hperm & _ & ->).
  rewrite length_take in Hshort.
  rewrite take_ge by lia. rewrite Hperm.
  destruct (visited_kept env data) as [seen_names [Hseen _ _ Hcover]].
  apply Hseen. apply (Hcover r n Hr Hn).
  now destruct n.
Qed.

Lemma short_answer_is_complete_witness :
  "Lakeside" ∈ name <$> [attraction_of "Fort" fort;
                         attraction_of "Gallery" gallery;
                         attraction_of "Lakeside" lakeside_from_park].
Proof.
  apply (short_answer_is_complete two_searches_env here _
           PoiFacts.two_searches_answer ltac:(cbn; lia)
           lakeside_from_museum "Lakeside").
  - rewrite PoiFacts.two_searches_results.
    do 3 right. left.
  - reflexivity.
  - discriminate.
Defined.

(** X23: the entries returned are the nearest ones: the kept entries are
    the returned ones and the cut ones, and no cut entry is nearer than a
    returned one. *)
Theorem returned_are_the_nearest env data l :
  get_nearby_attractions env data = Ok (Attractions l) ->
  exists cut,
    l ++ cut ≡ₚ kept env data /\
    forall a b, a ∈ l -> b ∈ cut -> dist_le a b.
Proof.
  intros Hrun.
  destruct (returned_from_kept _ _ _ Hrun)
    as (sorted & _ & Hperm & Hsorted & ->).
  exists (drop 30 sorted). rewrite take_drop. split; [exact Hperm |].
  intros a b Ha Hb. rewrite <- (take_drop 30 sorted) in Hsorted.
  eapply StronglySorted_app_1_elem_of; eassumption.
Qed.

Lemma returned_are_the_nearest_witness :
  exists cut,
    [attraction_of "Fort" fort; attraction_of "Gallery" gallery;
     attraction_of "Lakeside" lakeside_from_park] ++ cut
    ≡ₚ kept two_searches_env here.
Proof.
  destruct (returned_are_the_nearest two_searches_env here _
              PoiFacts.two_searches_answer) as (cut & Hperm & _).
  exists cut. exact Hperm.
Defined.

(** **** When the sort raises *)

Lemma insert_raises_type_error x : forall l e,
  insert_by_distance x l = Raise e -> e = TypeError.
Proof.
  induction l as [| y rest IH]; intros e; cbn; [discriminate |].
  destruct (distance x) as [dx |], (distance y) as [dy |]; cbn;
    try now intros [= <-].
  destruct (float_lt dx dy); [discriminate |].
  destruct (insert_by_distance x rest) as [rest' | e'] eqn:Hr; cbn;
    [discriminate |].
  intros [= <-]. now apply IH.
Qed.

Lemma sort_fold_raises : forall l acc e,
  fold_left sort_step l acc = Raise e ->
  (forall e', acc = Raise e' -> e' = TypeError) ->
  e = TypeError.
Proof.
  induction l as [| x l IH]; intros acc e; cbn [fold_left].
  - intros -> H. now apply H.
  - intros Hrun Hacc. apply (IH _ _ Hrun).
    intros e'. destruct acc as [sorted | e0]; cbn.
    + apply insert_raises_type_error.
    + intros [= <-]. now apply Hacc.
Qed.

Lemma sorted_pair_has_distances (l : list attraction) :
  StronglySorted dist_le l -> (2 <= length l)%nat ->
  Forall (fun a => is_Some (distance a)) l.
Proof.
  intros Hs Hlen. destruct l as [| x [| y t]]; cbn in Hlen; try lia.
  apply StronglySorted_inv in Hs as [_ Hx].
  assert (Hxd : is_Some (distance x)).
  { apply Forall_cons in Hx as [Hxy _]. unfold dist_le in Hxy.
    destruct (distance x); [eauto | contradiction]. }
  constructor; [exact Hxd |].
  eapply Forall_impl; [exact Hx |].
  intros z Hz. unfold dist_le in Hz.
  destruct (distance x); [| contradiction].
  destruct (distance z); [eauto | contradiction].
Qed.

Lemma sort_raises_iff (l : list attraction) e :
  sort_by_distance l = Raise e <->
  e = TypeError /\ (2 <= length l)%nat /\
  exists a, a ∈ l /\ distance a = None.
Proof.
  split.
  - intros Hrun.
    split; [apply (sort_fold_raises _ _ _ Hrun); discriminate |].
    destruct (decide (2 <= length l)%nat) as [Hlen | Hshort].
    + split; [exact Hlen |].
      destruct (decide (Forall (fun a => is_Some (distance a)) l))
        as [Hall | Hnot].
      * destruct (PoiFacts.sort_by_distance_total l Hall) as [l' Hl'].
        congruence.
      * apply not_Forall_Exists in Hnot; [| intros a; apply _].
        apply Exists_exists in Hnot as (a & Ha & Hnone).
        exists a. split; [exact Ha |].
        destruct (distance a) eqn:Hd; [| reflexivity].
        exfalso. apply Hnone. rewrite Hd. eauto.
    + destruct l as [| x [| y t]]; cbn in Hshort; try lia; discriminate.
  - intros (-> & Hlen & a & Ha & Hnone).
    destruct (sort_by_distance l) as [l' | e] eqn:Hrun.
    + apply PoiFacts.sort_by_distance_spec in Hrun as [Hperm Hsorted].
      assert (Hlen' : (2 <= length l')%nat) by now rewrite Hperm.
      pose proof (sorted_pair_has_distances l' Hsorted Hlen') as Hall.
      rewrite Forall_forall in Hall.
      destruct (Hall a) as [d Hd]; [now rewrite Hperm | congruence].
    + f_equal. apply (sort_fold_raises _ _ _ Hrun). discriminate.
Qed.

(** X24: with the credential set, when at least two entries are kept
    after the removal of repeated and missing names and one of them has
    no distance, the handler raises the [TypeError] of the sort of
    line 204. *)
Theorem proxy_raises_on_missing_distance env data a :
  key_present (NEXT_PUBLIC_TOMTOM_KEY env) = true ->
  (2 <= length (kept env data))%nat ->
  a ∈ kept env data ->
  distance a = None ->
  get_nearby_attractions env data = Raise TypeError.
Proof.
  intros Hkey Hlen Ha Hnone.
  rewrite handler_by_kept, Hkey. cbn [negb].
  assert (Hsort : sort_by_distance (kept env data) = Raise TypeError).
  { apply sort_raises_iff. split; [reflexivity |]. split; [exact Hlen |].
    exists a. auto. }
  now rewrite Hsort.
Qed.

Lemma kept_with_missing_distance :
  kept missing_distance_env here =
  [attraction_of "Fort" fort; attraction_of "Pier" no_distance_result].
Proof. vm_compute. reflexivity. Qed.

(** Two kept entries, one without a distance: the sort raises. *)
Lemma proxy_raises_on_missing_distance_witness :
  get_nearby_attractions missing_distance_env here = Raise TypeError.
Proof.
  apply (proxy_raises_on_missing_distance missing_distance_env here
           (attraction_of "Pier" no_distance_result)).
  - reflexivity.
  - rewrite kept_with_missing_distance. cbn. lia.
  - rewrite kept_with_missing_distance. right. left.
  - reflexivity.
Defined.

End PoiMore.
